(** * pyramid_autodoc: the route directive and its docstring trimmer

    A shallow embedding of [pyramid_autodoc/__init__.py].

    - Python 3 [str] values are lists of Unicode code points ([N]); the
      [str] methods the module calls ([expandtabs], [splitlines], [lstrip],
      [rstrip], [strip], [join], [split]) follow CPython's definitions.
      Under Python 3 the [decode] at the end of [trim] is not reached.
    - docutils nodes are a rose tree of tagged elements and text leaves.
    - The collaborators that live outside the module (the route mapper,
      [get_route_data], [http_directive], the reStructuredText parsers) are
      section variables. *)

From Stdlib Require Import Ascii String DecimalString DecimalNat.
From Stdlib Require Import List NArith ZArith Bool Lia.
Import ListNotations.
Open Scope string_scope.
Open Scope list_scope.
Set Warnings "-register-all".

(** ** Python strings *)

Module PyStr.

Abbreviation pystr := (list N).

(** A string literal of the source, as code points. *)
Definition str (s : string) : pystr := map N_of_ascii (list_ascii_of_string s).

(** Truth value of a sequence: [if s:] holds when [s] is not empty. *)
Definition truthy {A} (s : list A) : bool :=
  match s with
  | [] => false
  | _ :: _ => true
  end.

Definition TAB : N := 0x09%N.
Definition LF : N := 0x0A%N.
Definition CR : N := 0x0D%N.
Definition SPACE : N := 0x20%N.

(** [str.isspace] on one code point (CPython's [_PyUnicode_IsWhitespace]). *)
Definition is_space (c : N) : bool :=
  (((0x09 <=? c) && (c <=? 0x0D)) || ((0x1C <=? c) && (c <=? 0x20))
  || (c =? 0x85) || (c =? 0xA0) || (c =? 0x1680)
  || ((0x2000 <=? c) && (c <=? 0x200A))
  || (c =? 0x2028) || (c =? 0x2029) || (c =? 0x202F) || (c =? 0x205F)
  || (c =? 0x3000))%N.

(** Line boundaries of [str.splitlines] (CPython's [_PyUnicode_IsLinebreak]). *)
Definition is_linebreak (c : N) : bool :=
  (((0x0A <=? c) && (c <=? 0x0D)) || ((0x1C <=? c) && (c <=? 0x1E))
  || (c =? 0x85) || (c =? 0x2028) || (c =? 0x2029))%N.

(** Scanning from the left, and from the right, while [p] holds. *)
Fixpoint dropwhile {A} (p : A -> bool) (l : list A) : list A :=
  match l with
  | [] => []
  | x :: r => if p x then dropwhile p r else l
  end.

Fixpoint dropwhile_end {A} (p : A -> bool) (l : list A) : list A :=
  match l with
  | [] => []
  | x :: r =>
      match dropwhile_end p r with
      | [] => if p x then [] else [x]
      | r' => x :: r'
      end
  end.

Definition lstrip (s : pystr) : pystr := dropwhile is_space s.
Definition rstrip (s : pystr) : pystr := dropwhile_end is_space s.
Definition strip (s : pystr) : pystr := rstrip (lstrip s).

(** [s.expandtabs(tabsize)], with the running column as an argument: a tab
    becomes the spaces up to the next tab stop, and a line feed or carriage
    return resets the column. *)
Fixpoint expandtabs_from (tabsize column : nat) (s : pystr) : pystr :=
  match s with
  | [] => []
  | c :: r =>
      if (c =? TAB)%N then
        if (0 <? tabsize)%nat then
          let incr := tabsize - column mod tabsize in
          repeat SPACE incr ++ expandtabs_from tabsize (column + incr) r
        else expandtabs_from tabsize column r
      else
        c :: expandtabs_from tabsize
               (if (c =? LF)%N || (c =? CR)%N then 0 else column + 1) r
  end.

Definition expandtabs (s : pystr) : pystr := expandtabs_from 8 0 s.

(** [s.splitlines()]: the lines without their terminators; a carriage
    return followed by a line feed is one terminator, and a terminator at the
    very end opens no further line. *)
Fixpoint splitlines (s : pystr) : list pystr :=
  match s with
  | [] => []
  | c :: r =>
      if is_linebreak c then
        [] :: (if (c =? CR)%N then
                 match r with
                 | c' :: r' =>
                     if (c' =? LF)%N then splitlines r' else splitlines r
                 | [] => []
                 end
               else splitlines r)
      else
        match splitlines r with
        | [] => [[c]]
        | l :: ls => (c :: l) :: ls
        end
  end.

(** [sep.join(parts)]. *)
Fixpoint join (sep : pystr) (parts : list pystr) : pystr :=
  match parts with
  | [] => []
  | p :: rest =>
      match rest with
      | [] => p
      | _ :: _ => p ++ sep ++ join sep rest
      end
  end.

(** [s.split()]: the maximal runs of non-whitespace characters. *)
Fixpoint split_ws_aux (cur : pystr) (s : pystr) : list pystr :=
  match s with
  | [] => if truthy cur then [cur] else []
  | c :: r =>
      if is_space c then
        (if truthy cur then [cur] else []) ++ split_ws_aux [] r
      else split_ws_aux (cur ++ [c]) r
  end.

Definition split_ws (s : pystr) : list pystr := split_ws_aux [] s.

End PyStr.

Import PyStr.

(** ** The docstring trimmer *)

(** [sys.maxsize] of a 64-bit CPython. *)
Definition sys_maxsize : Z := 2 ^ 63 - 1.

(** One iteration of the loop that determines the minimum indentation. *)
Definition indent_step (indent : Z) (line : pystr) : Z :=
  let stripped := lstrip line in
  if truthy stripped
  then Z.min indent (Z.of_nat (length line) - Z.of_nat (length stripped))
  else indent.

(** [line[indent:]] for an [indent] that is not negative. *)
Definition slice_from (indent : Z) (line : pystr) : pystr :=
  skipn (Z.to_nat indent) line.

Definition is_empty (line : pystr) : bool := negb (truthy line).

(** [while trimmed and not trimmed[-1]: trimmed.pop()] *)
Definition pop_trailing (trimmed : list pystr) : list pystr :=
  dropwhile_end is_empty trimmed.

(** [while trimmed and not trimmed[0]: trimmed.pop(0)] *)
Definition pop_leading (trimmed : list pystr) : list pystr :=
  dropwhile is_empty trimmed.

(** The body of [trim] between [splitlines] and [join]: the indentation loop,
    the list [trimmed] and the two loops that pop blank lines off its ends. *)
Definition trim_lines (lines : list pystr) : list pystr :=
  let indent := fold_left indent_step (tl lines) sys_maxsize in
  let trimmed :=
    [strip (hd [] lines)]
    ++ (if (indent <? sys_maxsize)%Z
        then map (fun line => rstrip (slice_from indent line)) (tl lines)
        else []) in
  pop_leading (pop_trailing trimmed).

(** [trim(docstring)]; [None] is Python's [None].  [lines[0]] is read with a
    default that [splitlines_nonempty] shows is never used. *)
Definition trim (docstring : option pystr) : pystr :=
  match docstring with
  | None => []
  | Some [] => []
  | Some d => join [LF] (trim_lines (splitlines (expandtabs d)))
  end.

(** ** Vocabulary for the properties of the trimmer *)

Definition no_tab (s : pystr) : Prop := Forall (fun c => c <> TAB) s.

Definition no_linebreak (s : pystr) : Prop :=
  Forall (fun c => is_linebreak c = false) s.

Definition rstripped (l : pystr) : Prop := rstrip l = l.

(** [len(line) - len(stripped)] of the indentation loop. *)
Definition leading_ws (line : pystr) : nat :=
  length line - length (lstrip line).

(** The first line of the docstring, as [trim] sees it, has text. *)
Definition first_line_has_text (d : pystr) : bool :=
  truthy (strip (hd [] (splitlines (expandtabs d)))).

(** A line that is blank after stripping. *)
Definition is_blank (line : pystr) : bool := negb (truthy (strip line)).

(** A docstring whose first line is blank and whose other lines are indented
    by four and by two columns. *)
Definition doc_blank_first_line : pystr :=
  [LF] ++ str "    a" ++ [LF] ++ str "  b".

(** The width of the leading whitespace of a line. *)
Fixpoint leading_width (line : pystr) : nat :=
  match line with
  | [] => 0
  | c :: r => if is_space c then S (leading_width r) else 0
  end.

Definition minimum (ws : list nat) : nat := fold_right Nat.min (hd 0 ws) ws.

(** The minimum leading-whitespace width over all lines but the first,
    lines that are blank after stripping left out. *)
Definition min_indent_spec (lines : list pystr) : nat :=
  minimum (map leading_width (filter (fun l => negb (is_blank l)) (tl lines))).

(** The trimmer as the description words it: expand tabs, strip the first
    line, take the minimum indentation off every other line and the trailing
    whitespace off every line, drop the blank lines at both ends, join. *)
Definition trim_spec (d : pystr) : pystr :=
  let lines := splitlines (expandtabs d) in
  let m := min_indent_spec lines in
  join [LF]
    (pop_leading
       (pop_trailing
          (strip (hd [] lines) :: map (fun l => rstrip (skipn m l)) (tl lines)))).


(** ** docutils nodes *)

Inductive attr_value :=
| AInt (z : Z)
| AStrings (l : list pystr).

(** A [Text] leaf, or an element with its class name, the attributes the
    module passes to its constructor, and its children. *)
Inductive node :=
| Text (data : pystr)
| Element (tagname : string) (attributes : list (string * attr_value))
    (children : list node).

Definition tagname_of (n : node) : string :=
  match n with
  | Text _ => "#text"
  | Element t _ _ => t
  end.

Definition children_of (n : node) : list node :=
  match n with
  | Text _ => []
  | Element _ _ ch => ch
  end.

Definition attribute (key : string) (n : node) : option attr_value :=
  match n with
  | Text _ => None
  | Element _ atts _ =>
      option_map snd (find (fun kv => String.eqb (fst kv) key) atts)
  end.

(** [node += child] and [node.append(child)]. *)
Definition append_child (n child : node) : node :=
  match n with
  | Text d => Text d
  | Element t atts ch => Element t atts (ch ++ [child])
  end.

(** A [TextElement] built as [cls(text=text)]: the text becomes a [Text]
    child unless it is empty. *)
Definition text_element (tag : string) (text : pystr) : node :=
  Element tag [] (if truthy text then [Text text] else []).

(** [child_text_separator]: empty for the text elements, a blank line for
    the others. *)
Definition child_text_separator (tag : string) : pystr :=
  if String.eqb tag "title" || String.eqb tag "paragraph"
  then [] else [LF; LF].

(** [node.astext()]. *)
Fixpoint astext (n : node) : pystr :=
  match n with
  | Text d => d
  | Element t _ ch => join (child_text_separator t) (map astext ch)
  end.

(** ** Route records and the world around the directive *)

Record route_record := {
  name : pystr;
  pattern : pystr;
  view : pystr;
  method : pystr;
  docs : pystr
}.

(** One tuple of [get_route_data]: name, pattern, view, method, docs. *)
Definition route_tuple : Type := pystr * pystr * pystr * pystr * option pystr.

(** The routes mapper: [get_routes(include_static=True)] raises on a Pyramid
    that does not know the keyword ([None] here); [get_routes()] does not. *)
Record mapper (Route : Type) := {
  get_routes_include_static : option (list Route);
  get_routes_plain : list Route
}.
Arguments get_routes_include_static {Route} _.
Arguments get_routes_plain {Route} _.

(** What the module imports: Pyramid's [bootstrap] (an error message when it
    raises) and [Configurator(registry).get_routes_mapper()],
    [get_route_data] of [pyramid_autodoc.utils], [http_directive] of
    [sphinxcontrib.autohttp], Sphinx's [nested_parse_with_titles] as the nodes
    it appends for a [ViewList] of (line, source) pairs, and the docutils
    parser as the children of the document it fills for a source name and a
    text. *)
Record externals := {
  Route : Type;
  Registry : Type;
  bootstrap : pystr -> pystr + Registry;
  get_routes_mapper : Registry -> mapper Route;
  get_route_data : Route -> Registry -> list route_tuple;
  http_directive : pystr -> pystr -> pystr -> list pystr;
  nested_parse_with_titles : list (pystr * pystr) -> list node;
  rst_parse : pystr -> pystr -> list node
}.

Inductive exn :=
| BootstrapError (msg : pystr)
| Exception (msg : pystr).

Inductive outcome (A : Type) :=
| Ok (a : A)
| Raise (e : exn).
Arguments Ok {A} a.
Arguments Raise {A} e.

Inductive event :=
| Bootstrap (ini_file : pystr).

(** The build environment: the serial number of category ['route'] and the
    calls made to the application under documentation. *)
Record world := {
  serialno : nat;
  calls : list event
}.

Definition M (A : Type) : Type := world -> outcome A * world.

Definition ret {A} (a : A) : M A := fun w => (Ok a, w).

Definition raise {A} (e : exn) : M A := fun w => (Raise e, w).

Definition bind {A B} (m : M A) (k : A -> M B) : M B :=
  fun w =>
    match m w with
    | (Ok a, w') => k a w'
    | (Raise e, w') => (Raise e, w')
    end.

Notation "x <- m ;; k" := (bind m (fun x => k))
  (at level 61, m at next level, right associativity).

(** [env.new_serialno('route')]. *)
Definition new_serialno : M nat :=
  fun w => (Ok (serialno w), {| serialno := S (serialno w); calls := calls w |}).

Definition log_call (e : event) : M unit :=
  fun w => (Ok tt, {| serialno := serialno w; calls := calls w ++ [e] |}).

(** [for x in xs: body], threading the loop's accumulator. *)
Fixpoint for_each {A S} (xs : list A) (body : S -> A -> M S) (s : S) : M S :=
  match xs with
  | [] => ret s
  | x :: rest => s' <- body s x ;; for_each rest body s'
  end.

Fixpoint pystr_eqb (a b : pystr) : bool :=
  match a, b with
  | [], [] => true
  | x :: a', y :: b' => (x =? y)%N && pystr_eqb a' b'
  | _, _ => false
  end.

(** ["%d" % n] *)
Definition decimal (n : nat) : pystr :=
  str (NilEmpty.string_of_uint (Nat.to_uint n)).

(** [view in undocumented] for a list of strings. *)
Definition contains (l : list pystr) (x : pystr) : bool :=
  existsb (pystr_eqb x) l.

Definition is_undocumented (undocumented : option (list pystr)) (v : pystr) : bool :=
  match undocumented with
  | None => false
  | Some l => contains l v
  end.

Section Directive.

Variable ext : externals.

(** ** [rst2node] *)

Definition rst2node (doc_name data : pystr) : option node :=
  if negb (truthy data) then None
  else
    let children := rst_parse ext (str "<" ++ doc_name ++ str ">") data in
    if (length children =? 1)%nat then nth_error children 0
    else Some (fold_left append_child children (Element "paragraph" [] [])).

(** ** [RouteDirective] *)

(** The loop of [get_routes] over the routes of the mapper. *)
Definition map_routes (registry : Registry ext) (undocumented : option (list pystr))
    (routes : list (Route ext)) : list route_record :=
  fold_left
    (fun mapped_routes route =>
       fold_left
         (fun mapped_routes (t : route_tuple) =>
            let '(name, pattern, view, method, docs) := t in
            if is_undocumented undocumented view then mapped_routes
            else mapped_routes
                 ++ [{| name := name; pattern := pattern; view := view;
                        method := method; docs := trim docs |}])
         (get_route_data ext route registry) mapped_routes)
    routes [].

Definition get_routes (ini_file : pystr) (undocumented : option (list pystr))
  : M (list route_record) :=
  _ <- log_call (Bootstrap ini_file) ;;
  match bootstrap ext ini_file with
  | inl msg => raise (BootstrapError msg)
  | inr registry =>
      let mapper := get_routes_mapper ext registry in
      let routes :=
        match get_routes_include_static mapper with
        | Some routes => routes
        | None => get_routes_plain mapper
        end in
      ret (map_routes registry undocumented routes)
  end.

(** The loop body of [make_httpdomain_rst]: [result] and the children of
    [node] are the two objects created before the loop. *)
Definition httpdomain_step (acc : list (pystr * pystr) * list node)
    (route : route_record) : list (pystr * pystr) * list node :=
  let '(result, children) := acc in
  let directives := http_directive ext (method route) (pattern route) (docs route) in
  let result := fold_left (fun result line => result ++ [(line, str "<autopyramid>")])
                  directives result in
  (result, children ++ nested_parse_with_titles ext result).

Definition make_httpdomain_rst (mapped_routes : list route_record) : list node :=
  snd (fold_left httpdomain_step mapped_routes ([], [])).

Definition get_row (column_texts : list pystr) : node :=
  fold_left
    (fun row text =>
       let node := Element "paragraph" [] [Text text] in
       append_child row (Element "entry" [] [node]))
    column_texts (Element "row" [] []).

(** The loop body of [make_custom_rst].  The table is assembled from the
    inside out; the source adds the group to the table before it fills it,
    which gives the same tree. *)
Definition custom_section (route_no : nat) (mapped_route : route_record) : node :=
  let route_id := str "route-" ++ decimal route_no in
  let route_node := Element "section" [("ids", AStrings [route_id])] [] in
  let title := pattern mapped_route in
  let route_node := append_child route_node (text_element "title" title) in
  let body := Element "tbody" [] [] in
  let body := append_child body (get_row [str "Module"; view mapped_route]) in
  let body := append_child body (get_row [str "Request Method"; method mapped_route]) in
  let body := append_child body (get_row [str "Route Name"; name mapped_route]) in
  let group := Element "tgroup" [("cols", AInt 2)] [] in
  let group := append_child group (Element "colspec" [("colwidth", AInt 10)] []) in
  let group := append_child group (Element "colspec" [("colwidth", AInt 90)] []) in
  let group := append_child group body in
  let real_table := append_child (Element "table" [] []) group in
  let route_node := append_child route_node real_table in
  if truthy (docs mapped_route) then
    match rst2node (view mapped_route) (docs mapped_route) with
    | Some fragment => append_child route_node fragment
    | None => route_node
    end
  else route_node.

Definition make_custom_rst (mapped_routes : list route_record) : M (list node) :=
  for_each mapped_routes
    (fun custom_nodes mapped_route =>
       route_no <- new_serialno ;;
       ret (custom_nodes ++ [custom_section route_no mapped_route]))
    [].

(** The options of the directive as the two keys its [option_spec] allows. *)
Record directive_options := {
  opt_format : option pystr;
  opt_undoc_endpoints : option pystr
}.

Definition run (ini_file : pystr) (options : directive_options) : M (list node) :=
  let format :=
    match opt_format options with
    | Some f => f
    | None => str "custom"
    end in
  let undocumented := option_map split_ws (opt_undoc_endpoints options) in
  routes <- get_routes ini_file undocumented ;;
  if pystr_eqb format (str "custom") then make_custom_rst routes
  else if pystr_eqb format (str "httpdomain") then ret (make_httpdomain_rst routes)
  else raise (Exception (str "Unsupported format " ++ format)).

End Directive.

(** ** Vocabulary for the properties of the directive *)

Definition tuple_view (t : route_tuple) : pystr :=
  let '(_, _, view, _, _) := t in view.

(** The record [get_routes] stores for a tuple it keeps. *)
Definition record_of_tuple (t : route_tuple) : route_record :=
  let '(name, pattern, view, method, docs) := t in
  {| name := name; pattern := pattern; view := view; method := method;
     docs := trim docs |}.

(** The routes [get_routes] reads from the mapper. *)
Definition mapper_routes {Route} (m : mapper Route) : list Route :=
  match get_routes_include_static m with
  | Some routes => routes
  | None => get_routes_plain m
  end.

(** The block of source lines of one record, as [ViewList] items. *)
Definition route_block (ext : externals) (route : route_record)
  : list (pystr * pystr) :=
  map (fun line => (line, str "<autopyramid>"))
    (http_directive ext (method route) (pattern route) (docs route)).

Definition elements_tagged (tag : string) (l : list node) : list node :=
  filter (fun n => String.eqb (tagname_of n) tag) l.

Definition table_groups (table : node) : list node :=
  elements_tagged "tgroup" (children_of table).

Definition table_cols (table : node) : list (option attr_value) :=
  map (attribute "cols") (table_groups table).

Definition table_colwidths (table : node) : list (option attr_value) :=
  map (attribute "colwidth")
    (elements_tagged "colspec" (flat_map children_of (table_groups table))).

(** The text of the cells of a table, row by row. *)
Definition table_rows (table : node) : list (list pystr) :=
  map (fun row => map astext (elements_tagged "entry" (children_of row)))
    (elements_tagged "row"
       (flat_map children_of
          (elements_tagged "tbody" (flat_map children_of (table_groups table))))).

(** What the description asks of the section of one record. *)
Definition is_custom_section (ext : externals) (r : route_record) (n : node)
  : Prop :=
  tagname_of n = "section"
  /\ exists title table fragments,
       children_of n = title :: table :: fragments
       /\ tagname_of title = "title" /\ astext title = pattern r
       /\ tagname_of table = "table"
       /\ table_cols table = [Some (AInt 2)]
       /\ table_colwidths table = [Some (AInt 10); Some (AInt 90)]
       /\ table_rows table = [[str "Module"; view r];
                              [str "Request Method"; method r];
                              [str "Route Name"; name r]]
       /\ (docs r = [] -> fragments = [])
       /\ (docs r <> [] ->
           exists fragment, rst2node ext (view r) (docs r) = Some fragment
                            /\ fragments = [fragment]).

(** The identifier of the section with serial number [n]. *)
Definition route_id (n : nat) : pystr := str "route-" ++ decimal n.

(** The sections of the records, numbered from [first]. *)
Definition numbered_sections (ext : externals) (first : nat)
    (routes : list route_record) : list node :=
  map (fun numbered => custom_section ext (fst numbered) (snd numbered))
    (combine (seq first (length routes)) routes).

(** The records of the tuples of the application that are not left
    undocumented. *)
Definition documented_records (ext : externals) (registry : Registry ext)
    (undocumented : option (list pystr)) : list route_record :=
  map record_of_tuple
    (filter (fun t => negb (is_undocumented undocumented (tuple_view t)))
       (flat_map (fun route => get_route_data ext route registry)
          (mapper_routes (get_routes_mapper ext registry)))).

(** A name the option [undoc-endpoints] can hold: not empty, no whitespace. *)
Definition is_word (w : pystr) : Prop :=
  w <> [] /\ Forall (fun c => is_space c = false) w.

(** ** A small application, for the examples *)

Definition paragraph_of (line : pystr) : node :=
  Element "paragraph" [] [Text line].

Definition demo_home : list route_tuple :=
  [(str "home", str "/", str "views.home", str "GET", Some (str "Doc A"));
   (str "home", str "/", str "views.home", str "POST", Some (str "Doc A"))].

(** Stand-ins for the collaborators: an application with the route [home],
    a directive helper that emits the [http] directive and the indented
    docs, and parsers that make a paragraph of every line with text. *)
Definition demo : externals := {|
  Route := list route_tuple;
  Registry := list (list route_tuple);
  bootstrap := fun ini_file =>
    if pystr_eqb ini_file (str "development.ini") then inr [demo_home]
    else inl (str "no such file");
  get_routes_mapper := fun registry =>
    {| get_routes_include_static := None; get_routes_plain := registry |};
  get_route_data := fun route _ => route;
  http_directive := fun method pattern docs =>
    [[]; str ".. http:" ++ method ++ str ":: " ++ pattern; []]
    ++ map (fun line => str "   " ++ line) (splitlines docs) ++ [[]];
  nested_parse_with_titles := fun content =>
    map (fun item => paragraph_of (strip (fst item)))
      (filter (fun item => negb (is_blank (fst item))) content);
  rst_parse := fun _ data =>
    map paragraph_of (filter (fun l => negb (is_blank l)) (splitlines data))
|}.

Definition route_a : route_record :=
  {| name := str "a"; pattern := str "/a"; view := str "views.a";
     method := str "get"; docs := str "Doc A" |}.

Definition route_b : route_record :=
  {| name := str "b"; pattern := str "/b"; view := str "views.b";
     method := str "post"; docs := str "" |}.

Definition world0 : world := {| serialno := 0; calls := [] |}.

(** * Properties *)

(** ** Scanning lemmas shared by the strip functions and the pop loops *)

Section Scan.

Context {A : Type} (p : A -> bool).

Lemma dropwhile_split (l : list A) :
  exists w, l = w ++ dropwhile p l /\ forallb p w = true.
Proof.
  induction l as [|x r IH]; simpl.
  - exists []. split; reflexivity.
  - destruct (p x) eqn:E.
    + destruct IH as [w [Hw Hp]]. exists (x :: w). simpl.
      rewrite E, Hp. split; [congruence | reflexivity].
    + exists []. split; reflexivity.
Qed.

Lemma dropwhile_head (l : list A) x r :
  dropwhile p l = x :: r -> p x = false.
Proof.
  induction l as [|y l IH]; simpl; [discriminate|].
  destruct (p y) eqn:E; [exact IH|]. intros H. injection H as -> _. exact E.
Qed.

Lemma dropwhile_fixed (l : list A) :
  match l with [] => True | x :: _ => p x = false end -> dropwhile p l = l.
Proof. destruct l as [|x r]; simpl; [reflexivity|]. intros ->. reflexivity. Qed.

Lemma dropwhile_idem (l : list A) :
  dropwhile p (dropwhile p l) = dropwhile p l.
Proof.
  apply dropwhile_fixed. destruct (dropwhile p l) eqn:E; [exact I|].
  eapply dropwhile_head; eassumption.
Qed.

Lemma dropwhile_nil (l : list A) :
  dropwhile p l = [] <-> forallb p l = true.
Proof.
  induction l as [|x r IH]; simpl; [tauto|].
  destruct (p x); simpl; [exact IH|]. split; discriminate.
Qed.

Lemma dropwhile_Forall (P : A -> Prop) (l : list A) :
  Forall P l -> Forall P (dropwhile p l).
Proof.
  induction 1 as [|x r Hx Hr IH]; simpl; [constructor|].
  destruct (p x); [exact IH | constructor; assumption].
Qed.

Lemma dropwhile_In (l : list A) x :
  In x l -> p x = false -> In x (dropwhile p l).
Proof.
  induction l as [|y r IH]; simpl; [tauto|].
  intros [->|H] Hx.
  - rewrite Hx. left. reflexivity.
  - destruct (p y); [auto | right; exact H].
Qed.

Lemma dropwhile_last (l : list A) d :
  dropwhile p l <> [] -> last (dropwhile p l) d = last l d.
Proof.
  induction l as [|x r IH]; simpl; [reflexivity|].
  destruct (p x); [|reflexivity].
  intros H. rewrite (IH H). destruct r; [contradiction H; reflexivity | reflexivity].
Qed.

Lemma dropwhile_end_keep (x : A) (r : list A) :
  p x = false -> dropwhile_end p (x :: r) = x :: dropwhile_end p r.
Proof. intros E. simpl. rewrite E. destruct (dropwhile_end p r); reflexivity. Qed.

Lemma dropwhile_end_cons_nonnil (x : A) (r : list A) :
  dropwhile_end p r <> [] -> dropwhile_end p (x :: r) = x :: dropwhile_end p r.
Proof. simpl. destruct (dropwhile_end p r); [intros H; contradiction H|]; reflexivity. Qed.

Lemma dropwhile_end_nil (l : list A) :
  dropwhile_end p l = [] <-> forallb p l = true.
Proof.
  induction l as [|x r IH]; simpl; [tauto|].
  destruct (dropwhile_end p r) eqn:E.
  - destruct (p x); simpl; [tauto|]. split; discriminate.
  - split; [discriminate|]. intros H. apply andb_prop in H.
    destruct IH as [_ IH]. specialize (IH (proj2 H)). discriminate.
Qed.

Lemma dropwhile_end_split (l : list A) :
  exists w, l = dropwhile_end p l ++ w /\ forallb p w = true.
Proof.
  induction l as [|x r IH]; simpl.
  - exists []. split; reflexivity.
  - destruct IH as [w [Hw Hp]]. destruct (dropwhile_end p r) eqn:E.
    + simpl in Hw. subst w. destruct (p x) eqn:Ex.
      * exists (x :: r). simpl. rewrite Ex, Hp. split; reflexivity.
      * exists r. split; [reflexivity | exact Hp].
    + exists w. split; [|exact Hp]. simpl. f_equal. exact Hw.
Qed.

Lemma dropwhile_end_last (l : list A) d :
  dropwhile_end p l <> [] -> p (last (dropwhile_end p l) d) = false.
Proof.
  induction l as [|x r IH]; simpl; [intros H; contradiction H; reflexivity|].
  destruct (dropwhile_end p r) eqn:E.
  - destruct (p x) eqn:Ex; [intros H; contradiction H; reflexivity|].
    intros _. exact Ex.
  - intros _. change (p (last (a :: l) d) = false). apply IH. discriminate.
Qed.

Lemma dropwhile_end_fixed (l : list A) d :
  (l = [] \/ p (last l d) = false) -> dropwhile_end p l = l.
Proof.
  induction l as [|x r IH]; [reflexivity|].
  intros [H|H]; [discriminate|].
  destruct r as [|y r'].
  - simpl in *. rewrite H. reflexivity.
  - assert (Hr : dropwhile_end p (y :: r') = y :: r') by (apply IH; right; exact H).
    rewrite dropwhile_end_cons_nonnil; rewrite Hr; [reflexivity | discriminate].
Qed.

Lemma dropwhile_end_idem (l : list A) :
  dropwhile_end p (dropwhile_end p l) = dropwhile_end p l.
Proof.
  destruct l as [|d l']; [reflexivity|]. set (l := d :: l').
  apply dropwhile_end_fixed with (d := d).
  destruct (dropwhile_end p l) eqn:E; [left; reflexivity|].
  right. rewrite <- E. apply dropwhile_end_last. rewrite E. discriminate.
Qed.

Lemma dropwhile_end_Forall (P : A -> Prop) (l : list A) :
  Forall P l -> Forall P (dropwhile_end p l).
Proof.
  induction 1 as [|x r Hx Hr IH]; simpl; [constructor|].
  destruct (dropwhile_end p r).
  - destruct (p x); repeat constructor; assumption.
  - constructor; assumption.
Qed.

Lemma dropwhile_end_In (l : list A) x :
  In x l -> p x = false -> In x (dropwhile_end p l).
Proof.
  induction l as [|y r IH]; simpl; [tauto|].
  intros [->|H] Hx.
  - destruct (dropwhile_end p r); [rewrite Hx|]; left; reflexivity.
  - specialize (IH H Hx). destruct (dropwhile_end p r); [destruct IH|].
    right. exact IH.
Qed.

Lemma dropwhile_end_app_all (l w : list A) :
  forallb p w = true -> dropwhile_end p (l ++ w) = dropwhile_end p l.
Proof.
  intros Hw. induction l as [|x r IH]; simpl.
  - apply dropwhile_end_nil. exact Hw.
  - rewrite IH. reflexivity.
Qed.

(** A list both loops have run over starts and ends with an element the
    loops keep, unless nothing is left of it. *)
Lemma dropwhile_both_ends (l : list A) d :
  let t := dropwhile p (dropwhile_end p l) in
  t = [] \/ (p (hd d t) = false /\ p (last t d) = false).
Proof.
  simpl. destruct (dropwhile p (dropwhile_end p l)) as [|x r] eqn:E;
    [left; reflexivity | right].
  split.
  - simpl. eapply dropwhile_head; eassumption.
  - rewrite <- E. rewrite dropwhile_last by (rewrite E; discriminate).
    apply dropwhile_end_last. intros H. rewrite H in E. discriminate.
Qed.

End Scan.

(** ** The string methods *)

Lemma list_ind2 {A} (Q : list A -> Prop) :
  Q [] -> (forall c, Q [c]) ->
  (forall c c' r, Q r -> Q (c' :: r) -> Q (c :: c' :: r)) ->
  forall l, Q l.
Proof.
  intros H0 H1 H2 l.
  assert (H : Q l /\ forall c, Q (c :: l)).
  { induction l as [|c' r [IHr IHc]]; split; auto. }
  exact (proj1 H).
Qed.

Lemma expandtabs_from_no_tab tabsize column s :
  0 < tabsize -> no_tab (expandtabs_from tabsize column s).
Proof.
  intros Ht. revert column. induction s as [|c r IH]; intros column; simpl.
  - constructor.
  - destruct (N.eqb_spec c TAB) as [->|Hc].
    + destruct (Nat.ltb_spec 0 tabsize) as [_|Hn]; [|lia].
      apply Forall_app. split; [|apply IH].
      apply Forall_forall. intros x Hx. apply repeat_spec in Hx. subst x.
      discriminate.
    + constructor; [exact Hc | apply IH].
Qed.

Lemma expandtabs_from_id tabsize column s :
  no_tab s -> expandtabs_from tabsize column s = s.
Proof.
  intros H. revert column. induction H as [|c r Hc Hr IH]; intros column; simpl.
  - reflexivity.
  - destruct (N.eqb_spec c TAB) as [E|_]; [contradiction|]. f_equal. apply IH.
Qed.

(** [splitlines] on a string of two characters or more. *)
Lemma splitlines_cons2 (c c' : N) (r : pystr) :
  splitlines (c :: c' :: r)
  = if is_linebreak c
    then [] :: (if (c =? CR)%N
                then if (c' =? LF)%N then splitlines r else splitlines (c' :: r)
                else splitlines (c' :: r))
    else match splitlines (c' :: r) with
         | [] => [[c]]
         | l :: ls => (c :: l) :: ls
         end.
Proof. reflexivity. Qed.

Lemma splitlines_Forall (P : N -> Prop) s :
  Forall P s -> Forall (Forall P) (splitlines s).
Proof.
  induction s as [| c | c c' r IHr IHc] using list_ind2; intros H.
  - constructor.
  - simpl. destruct (is_linebreak c); [destruct (c =? CR)%N|]; repeat constructor.
    inversion H; assumption.
  - inversion H as [|? ? Hc H']. subst.
    specialize (IHc H'). inversion H' as [|? ? Hc' Hr]. subst.
    specialize (IHr Hr).
    rewrite splitlines_cons2.
    destruct (is_linebreak c).
    + constructor; [constructor|].
      destruct (c =? CR)%N; [destruct (c' =? LF)%N|]; assumption.
    + destruct (splitlines (c' :: r)) as [|l ls].
      * repeat constructor. exact Hc.
      * inversion IHc. subst. constructor; [constructor|]; assumption.
Qed.

Lemma splitlines_no_linebreak s : Forall no_linebreak (splitlines s).
Proof.
  induction s as [| c | c c' r IHr IHc] using list_ind2.
  - constructor.
  - simpl. destruct (is_linebreak c) eqn:E; [destruct (c =? CR)%N|];
      repeat constructor. exact E.
  - rewrite splitlines_cons2.
    destruct (is_linebreak c) eqn:E.
    + constructor; [constructor|].
      destruct (c =? CR)%N; [destruct (c' =? LF)%N|]; assumption.
    + destruct (splitlines (c' :: r)) as [|l ls].
      * repeat constructor. exact E.
      * inversion IHc. subst. constructor; [constructor|]; assumption.
Qed.

Lemma splitlines_length s :
  Forall (fun l => length l <= length s) (splitlines s).
Proof.
  induction s as [| c | c c' r IHr IHc] using list_ind2.
  - constructor.
  - simpl. destruct (is_linebreak c); [destruct (c =? CR)%N|];
      repeat constructor.
  - rewrite splitlines_cons2.
    assert (Hr : Forall (fun l => length l <= length (c :: c' :: r)) (splitlines r)).
    { eapply Forall_impl; [|exact IHr]. simpl. intros; lia. }
    assert (Hc : Forall (fun l => length l <= length (c :: c' :: r))
                   (splitlines (c' :: r))).
    { eapply Forall_impl; [|exact IHc]. simpl. intros; lia. }
    destruct (is_linebreak c).
    + constructor; [simpl; lia|].
      destruct (c =? CR)%N; [destruct (c' =? LF)%N|]; assumption.
    + destruct (splitlines (c' :: r)) as [|l ls].
      * constructor; [simpl; lia | constructor].
      * inversion IHc as [|? ? Hl _]. inversion Hc as [|? ? _ Hls].
        constructor; [simpl in *; lia | exact Hls].
Qed.

(** [lines[0]] is defined whenever the docstring is not empty. *)
Lemma splitlines_nonempty s : s <> [] -> splitlines s <> [].
Proof.
  destruct s as [|c r]; [intros H; contradiction H; reflexivity|]. intros _.
  simpl. destruct (is_linebreak c); [discriminate|].
  destruct (splitlines r); discriminate.
Qed.

Lemma splitlines_line_LF l s :
  no_linebreak l -> splitlines (l ++ LF :: s) = l :: splitlines s.
Proof.
  induction 1 as [|c r Hc Hr IH].
  - reflexivity.
  - simpl. rewrite Hc, IH. reflexivity.
Qed.

Lemma splitlines_one_line l :
  no_linebreak l -> l <> [] -> splitlines l = [l].
Proof.
  induction 1 as [|c r Hc Hr IH]; [intros H; contradiction H; reflexivity|].
  intros _. simpl. rewrite Hc. destruct r as [|c' r']; [reflexivity|].
  rewrite IH by discriminate. reflexivity.
Qed.

Lemma splitlines_join (t : list pystr) :
  Forall no_linebreak t -> (t <> [] -> last t [] <> []) ->
  splitlines (join [LF] t) = t.
Proof.
  induction 1 as [|l rest Hl Hrest IH]; intros Hlast; [reflexivity|].
  destruct rest as [|l2 rest'].
  - simpl. apply splitlines_one_line; [exact Hl|]. apply Hlast. discriminate.
  - change (join [LF] (l :: l2 :: rest')) with (l ++ LF :: join [LF] (l2 :: rest')).
    rewrite splitlines_line_LF by exact Hl. f_equal. apply IH.
    intros _. apply Hlast. discriminate.
Qed.

Lemma join_Forall (P : N -> Prop) sep (t : list pystr) :
  Forall P sep -> Forall (Forall P) t -> Forall P (join sep t).
Proof.
  intros Hsep. induction 1 as [|l rest Hl Hrest IH]; [constructor|].
  simpl. destruct rest; [exact Hl|].
  apply Forall_app. split; [exact Hl|]. apply Forall_app. split; assumption.
Qed.

Lemma join_nonempty sep (t : list pystr) :
  hd [] t <> [] -> join sep t <> [].
Proof.
  destruct t as [|l rest]; simpl; [intros H; contradiction H; reflexivity|].
  intros Hl. destruct rest; [exact Hl|].
  destruct l; [contradiction Hl; reflexivity | discriminate].
Qed.

(** ** Stripping *)

Lemma lstrip_fixed_strip s : lstrip (strip s) = strip s.
Proof.
  unfold strip, lstrip, rstrip.
  apply dropwhile_fixed.
  destruct (dropwhile is_space s) as [|c r] eqn:E; [exact I|].
  pose proof (dropwhile_head _ _ _ _ E) as Hc.
  rewrite dropwhile_end_keep by exact Hc. exact Hc.
Qed.

Lemma rstrip_idem s : rstrip (rstrip s) = rstrip s.
Proof. apply dropwhile_end_idem. Qed.

Lemma strip_idem s : strip (strip s) = strip s.
Proof. unfold strip at 1. rewrite lstrip_fixed_strip. unfold strip. apply rstrip_idem. Qed.

Lemma truthy_strip s : truthy (strip s) = truthy (lstrip s).
Proof.
  unfold strip, lstrip, rstrip.
  destruct (dropwhile is_space s) as [|c r] eqn:E; [reflexivity|].
  rewrite dropwhile_end_keep by (eapply dropwhile_head; exact E). reflexivity.
Qed.

Lemma rstripped_nonempty_strip s :
  rstrip s = s -> s <> [] -> strip s <> [].
Proof.
  intros Hr Hs Hstrip.
  assert (Hl : lstrip s = []).
  { pose proof (truthy_strip s) as H. rewrite Hstrip in H.
    destruct (lstrip s); [reflexivity | discriminate]. }
  apply dropwhile_nil in Hl. apply dropwhile_end_nil in Hl.
  apply Hs. rewrite <- Hr. exact Hl.
Qed.

Lemma lstrip_decompose line :
  exists ws, line = ws ++ lstrip line /\ length ws = leading_ws line
             /\ Forall (fun c => is_space c = true) ws.
Proof.
  destruct (dropwhile_split is_space line) as [ws [Hl Hws]].
  fold (lstrip line) in Hl. exists ws. split; [exact Hl|]. split.
  - unfold leading_ws.
    assert (length line = length ws + length (lstrip line))
      by (rewrite <- length_app; congruence).
    lia.
  - apply Forall_forall. intros c Hc.
    rewrite forallb_forall in Hws. auto.
Qed.

Lemma skipn_leading_ws line : skipn (leading_ws line) line = lstrip line.
Proof.
  destruct (lstrip_decompose line) as [ws [Hl [Hlen _]]].
  rewrite <- Hlen.
  transitivity (skipn (length ws) (ws ++ lstrip line)); [congruence|].
  rewrite skipn_app, skipn_all, Nat.sub_diag. reflexivity.
Qed.

Lemma leading_ws_lt line : lstrip line <> [] -> leading_ws line < length line.
Proof.
  intros H. destruct (lstrip_decompose line) as [ws [Hl [Hlen _]]].
  rewrite <- Hlen.
  assert (Hlen2 : length line = length ws + length (lstrip line))
    by (rewrite <- length_app; congruence).
  destruct (lstrip line); [contradiction H; reflexivity | simpl in Hlen2; lia].
Qed.

Lemma skipn_Forall {A} (P : A -> Prop) n (l : list A) :
  Forall P l -> Forall P (skipn n l).
Proof.
  intros H. rewrite <- (firstn_skipn n l) in H.
  apply Forall_app in H. exact (proj2 H).
Qed.

Lemma indent_step_eq indent line :
  indent_step indent line =
  if truthy (lstrip line) then Z.min indent (Z.of_nat (leading_ws line))
  else indent.
Proof.
  unfold indent_step, leading_ws. destruct (truthy (lstrip line)) eqn:E; [|reflexivity].
  f_equal.
  assert (length (lstrip line) <= length line).
  { destruct (lstrip_decompose line) as [ws [Hl _]].
    assert (length line = length ws + length (lstrip line))
      by (rewrite <- length_app; congruence).
    lia. }
  lia.
Qed.

(** What the indentation loop leaves in [indent]: the start value, or the
    width of a non-blank line, and in any case a lower bound of all of them. *)
Lemma fold_indent lines : forall start, (0 <= start)%Z ->
  let indent := fold_left indent_step lines start in
  (0 <= indent <= start)%Z
  /\ (indent = start
      \/ exists line, In line lines /\ truthy (lstrip line) = true
                      /\ indent = Z.of_nat (leading_ws line))
  /\ (forall line, In line lines -> truthy (lstrip line) = true ->
                   (indent <= Z.of_nat (leading_ws line))%Z).
Proof.
  induction lines as [|l rest IH]; intros start Hs; simpl.
  - split; [lia|]. split; [left; reflexivity | intros ? []].
  - rewrite indent_step_eq.
    destruct (truthy (lstrip l)) eqn:E.
    + destruct (IH (Z.min start (Z.of_nat (leading_ws l)))) as [Hb [Hw Hm]]; [lia|].
      split; [lia|]. split.
      * destruct Hw as [Hw | [line [Hin [Ht Hw]]]].
        -- destruct (Z.min_spec start (Z.of_nat (leading_ws l))) as [[_ Hmin]|[_ Hmin]].
           ++ left. congruence.
           ++ right. exists l. split; [left; reflexivity|]. split; [exact E|]. congruence.
        -- right. exists line. auto.
      * intros line [<-|Hin] Ht; [lia | auto].
    + destruct (IH start Hs) as [Hb [Hw Hm]]. split; [exact Hb|]. split.
      * destruct Hw as [Hw | [line [Hin [Ht Hw]]]]; [left; exact Hw|].
        right. exists line. auto.
      * intros line [<-|Hin] Ht; [congruence | auto].
Qed.

(** ** The trimmer *)

Lemma is_empty_false (l : pystr) : is_empty l = false <-> l <> [].
Proof. destruct l; simpl; split; try discriminate; auto. intros H; contradiction H; reflexivity. Qed.

Lemma Forall_hd {A} (P : A -> Prop) d (l : list A) :
  P d -> Forall P l -> P (hd d l).
Proof. intros Hd H. destruct H; simpl; assumption. Qed.

Lemma last_In {A} (l : list A) d : l <> [] -> In (last l d) l.
Proof.
  induction l as [|x r IH]; [intros H; contradiction H; reflexivity|].
  intros _. destruct r as [|y r']; [left; reflexivity|].
  right. apply IH. discriminate.
Qed.

Lemma Forall_tl {A} (P : A -> Prop) (l : list A) :
  Forall P l -> Forall P (tl l).
Proof. intros H. destruct H; simpl; [constructor | assumption]. Qed.

Lemma trim_some d :
  d <> [] -> trim (Some d) = join [LF] (trim_lines (splitlines (expandtabs d))).
Proof. destruct d; [intros H; contradiction H|]; reflexivity. Qed.

Lemma trim_lines_Forall (Q : N -> Prop) lines :
  Forall (Forall Q) lines -> Forall (Forall Q) (trim_lines lines).
Proof.
  intros H. unfold trim_lines, pop_leading, pop_trailing.
  apply dropwhile_Forall, dropwhile_end_Forall. simpl. constructor.
  - apply dropwhile_end_Forall, dropwhile_Forall, Forall_hd; [constructor | exact H].
  - destruct (_ <? _)%Z; [|constructor].
    apply Forall_map. eapply Forall_impl; [|apply Forall_tl; exact H].
    intros l Hl. apply dropwhile_end_Forall, skipn_Forall, Hl.
Qed.

Lemma trim_lines_rstripped lines : Forall rstripped (trim_lines lines).
Proof.
  unfold trim_lines, pop_leading, pop_trailing.
  apply dropwhile_Forall, dropwhile_end_Forall. simpl. constructor.
  - apply rstrip_idem.
  - destruct (_ <? _)%Z; [|constructor].
    apply Forall_map, Forall_forall. intros l _. apply rstrip_idem.
Qed.

Lemma trim_lines_ends lines :
  trim_lines lines = []
  \/ (hd [] (trim_lines lines) <> [] /\ last (trim_lines lines) [] <> []).
Proof.
  unfold trim_lines, pop_leading, pop_trailing.
  match goal with |- dropwhile _ (dropwhile_end _ ?x) = [] \/ _ =>
    destruct (dropwhile_both_ends is_empty x []) as [H|[H1 H2]] end.
  - left. exact H.
  - right. split; apply is_empty_false; assumption.
Qed.

(** Joining trimmed lines and splitting them again gives the same lines. *)
Lemma resplit t :
  Forall no_tab t -> Forall no_linebreak t -> (t <> [] -> last t [] <> []) ->
  splitlines (expandtabs (join [LF] t)) = t.
Proof.
  intros Hnt Hnl Hlast. unfold expandtabs. rewrite expandtabs_from_id.
  - apply splitlines_join; assumption.
  - apply join_Forall; [repeat constructor; discriminate | exact Hnt].
Qed.

Lemma expandtabs_lines_no_tab d : Forall no_tab (splitlines (expandtabs d)).
Proof. apply splitlines_Forall, expandtabs_from_no_tab. lia. Qed.

Lemma trim_resplit d :
  let t := trim_lines (splitlines (expandtabs d)) in
  splitlines (expandtabs (join [LF] t)) = t.
Proof.
  simpl. apply resplit.
  - apply trim_lines_Forall, expandtabs_lines_no_tab.
  - apply trim_lines_Forall, splitlines_no_linebreak.
  - intros Hne. destruct (trim_lines_ends (splitlines (expandtabs d))) as [H|[_ H]];
      [contradiction | exact H].
Qed.

(** Lines the second pass leaves alone. *)
Lemma trim_lines_fixed t :
  Forall rstripped t -> hd [] t <> [] -> last t [] <> [] ->
  lstrip (hd [] t) = hd [] t ->
  (tl t = [] \/ exists line, In line (tl t) /\ line <> [] /\ lstrip line = line) ->
  trim_lines t = t.
Proof.
  intros Hr Hhd Hlast Hl Htl.
  destruct t as [|l0 rest]; [contradiction Hhd; reflexivity|]. simpl in *.
  inversion Hr as [|? ? Hr0 Hrest]. subst.
  assert (H0 : strip l0 = l0) by (unfold strip; rewrite Hl; exact Hr0).
  assert (Hpop : pop_leading (pop_trailing (l0 :: rest)) = l0 :: rest).
  { unfold pop_leading, pop_trailing.
    rewrite (dropwhile_end_fixed is_empty (l0 :: rest) []).
    - apply dropwhile_fixed. apply is_empty_false. exact Hhd.
    - right. apply is_empty_false. exact Hlast. }
  unfold trim_lines. simpl hd. simpl tl. rewrite H0.
  destruct Htl as [-> | [line [Hin [Hne Hline]]]].
  - simpl. exact Hpop.
  - pose proof (fold_indent rest sys_maxsize ltac:(unfold sys_maxsize; lia))
      as [Hb [_ Hm]].
    assert (Hz : fold_left indent_step rest sys_maxsize = 0%Z).
    { specialize (Hm line Hin). rewrite Hline in Hm.
      assert (Ht : truthy line = true) by (destruct line; [contradiction Hne|]; reflexivity).
      specialize (Hm Ht). unfold leading_ws in Hm. rewrite Hline in Hm. lia. }
    rewrite Hz. simpl.
    replace (map (fun line0 => rstrip (slice_from 0 line0)) rest) with rest; [exact Hpop|].
    clear - Hrest. induction Hrest as [|x r Hx _ IH]; [reflexivity|].
    simpl. unfold slice_from at 1. simpl. rewrite Hx. f_equal. exact IH.
Qed.

(** When the first line has text, it stays the first line, and either no
    other line is left or one of them starts in column 0. *)
Lemma trim_lines_first_nonblank (lines : list pystr) :
  strip (hd [] lines) <> [] ->
  let t := trim_lines lines in
  hd [] t = strip (hd [] lines)
  /\ (tl t = [] \/ exists line, In line (tl t) /\ line <> [] /\ lstrip line = line).
Proof.
  intros H0. cbv zeta. unfold trim_lines, pop_leading, pop_trailing.
  generalize (fold_indent (tl lines) sys_maxsize ltac:(unfold sys_maxsize; lia)).
  cbv zeta. generalize (fold_left indent_step (tl lines) sys_maxsize).
  intros indent [_ [Hw _]]. simpl app.
  rewrite dropwhile_end_keep by (apply is_empty_false; exact H0).
  rewrite dropwhile_fixed by (apply is_empty_false; exact H0).
  simpl. split; [reflexivity|].
  destruct (Z.ltb_spec indent sys_maxsize) as [Hlt|Hge]; [|left; reflexivity].
  right. destruct Hw as [Hw|[line [Hin [Ht Hw]]]]; [lia|].
  exists (strip line).
  assert (Hs : strip line <> []).
  { intros E. pose proof (truthy_strip line) as Hts. rewrite E, Ht in Hts. discriminate. }
  split; [|split; [exact Hs | apply lstrip_fixed_strip]].
  apply dropwhile_end_In; [|apply is_empty_false; exact Hs].
  apply in_map_iff. exists line. split; [|exact Hin].
  unfold slice_from. rewrite Hw, Nat2Z.id, skipn_leading_ws. reflexivity.
Qed.

Lemma truthy_true {A} (l : list A) : truthy l = true <-> l <> [].
Proof.
  destruct l; simpl; split; intros H; try discriminate; try reflexivity.
  contradiction H; reflexivity.
Qed.

Lemma trim_output_first_line (x : option pystr) :
  trim x = [] \/ first_line_has_text (trim x) = true.
Proof.
  destruct x as [[|c d]|]; [left; reflexivity | | left; reflexivity].
  rewrite trim_some by discriminate.
  set (lines := splitlines (expandtabs (c :: d))).
  destruct (trim_lines_ends lines) as [E|[Hhd Hlast]].
  - left. rewrite E. reflexivity.
  - right. unfold first_line_has_text. subst lines. rewrite trim_resplit.
    apply truthy_true. apply rstripped_nonempty_strip; [|exact Hhd].
    apply (Forall_hd rstripped); [reflexivity | apply trim_lines_rstripped].
Qed.

Lemma trim_fixed_first_line (d : pystr) :
  first_line_has_text d = true -> trim (Some (trim (Some d))) = trim (Some d).
Proof.
  intros H. unfold first_line_has_text in H. apply truthy_true in H.
  assert (Hd : d <> []) by (intros ->; apply H; reflexivity).
  rewrite (trim_some d Hd).
  set (lines := splitlines (expandtabs d)) in *.
  destruct (trim_lines_first_nonblank lines H) as [Hhd Htl].
  destruct (trim_lines_ends lines) as [E|[Hne Hlast]].
  { rewrite E in Hhd. simpl in Hhd. symmetry in Hhd. contradiction. }
  rewrite trim_some by (apply join_nonempty; exact Hne).
  subst lines. rewrite trim_resplit. f_equal.
  apply trim_lines_fixed; try assumption.
  - apply trim_lines_rstripped.
  - rewrite Hhd. apply lstrip_fixed_strip.
Qed.

Example trim_doc_blank_first_line :
  trim (Some doc_blank_first_line) = str "  a" ++ [LF] ++ str "b"
  /\ trim (Some (trim (Some doc_blank_first_line))) = str "a" ++ [LF] ++ str "b".
Proof. split; vm_compute; reflexivity. Qed.

(** C2, as stated: [trim(trim(x)) == trim(x)] fails on a docstring that
    opens with a blank line followed by lines of different indentation: the
    first pass leaves the residual indentation of the line that becomes the
    first one, and the second pass strips it. *)
Lemma trim_not_idempotent :
  trim (Some (trim (Some doc_blank_first_line)))
  <> trim (Some doc_blank_first_line).
Proof. vm_compute. discriminate. Qed.

(** C2, amended: for every docstring whose first line has a character that
    is not whitespace, [trim(trim(x)) == trim(x)]. *)
Theorem trim_idempotent_first_line (d : pystr) :
  first_line_has_text d = true ->
  trim (Some (trim (Some d))) = trim (Some d).
Proof. apply trim_fixed_first_line. Qed.

Lemma trim_idempotent_first_line_witness :
  first_line_has_text (str "Title" ++ [LF] ++ str "    body" ++ [LF]) = true
  /\ trim (Some (trim (Some (str "Title" ++ [LF] ++ str "    body" ++ [LF]))))
     = trim (Some (str "Title" ++ [LF] ++ str "    body" ++ [LF])).
Proof.
  split; [reflexivity|].
  apply (trim_idempotent_first_line (str "Title" ++ [LF] ++ str "    body" ++ [LF])).
  reflexivity.
Defined.

(** For every input the second pass already reaches a fixed point. *)
Corollary trim_stable_after_two (x : option pystr) :
  trim (Some (trim (Some (trim x)))) = trim (Some (trim x)).
Proof.
  destruct (trim_output_first_line x) as [E|H].
  - rewrite E. reflexivity.
  - apply trim_fixed_first_line. exact H.
Qed.

(** C8: the output of [trim] neither begins nor ends with a blank line: its
    lines are exactly the lines [splitlines] finds in it (no terminator is
    left at the end), and unless the output is empty its first and its last
    line have text. *)
Theorem trim_no_blank_ends (x : option pystr) :
  join [LF] (splitlines (trim x)) = trim x
  /\ match splitlines (trim x) with
     | [] => trim x = []
     | first :: others =>
         is_blank first = false /\ is_blank (last (first :: others) []) = false
     end.
Proof.
  destruct x as [[|c d]|]; [split; reflexivity | | split; reflexivity].
  rewrite trim_some by discriminate.
  set (lines := splitlines (expandtabs (c :: d))).
  assert (Hsplit : splitlines (join [LF] (trim_lines lines)) = trim_lines lines).
  { apply splitlines_join.
    - apply trim_lines_Forall, splitlines_no_linebreak.
    - intros Hne. destruct (trim_lines_ends lines) as [H|[_ H]];
        [contradiction | exact H]. }
  rewrite Hsplit. split; [reflexivity|].
  pose proof (trim_lines_rstripped lines) as Hr.
  destruct (trim_lines_ends lines) as [E|[Hhd Hlast]].
  - rewrite E. reflexivity.
  - destruct (trim_lines lines) as [|first others] eqn:E;
      [contradiction Hhd; reflexivity|].
    unfold is_blank. split; apply negb_false_iff, truthy_true,
      rstripped_nonempty_strip; try assumption.
    + inversion Hr; assumption.
    + rewrite Forall_forall in Hr. apply Hr, last_In. discriminate.
Qed.

(** C9: [trim] of the empty string and of [None] is the empty string. *)
Theorem trim_empty_or_absent :
  trim (Some (str "")) = str "" /\ trim None = str "".
Proof. split; reflexivity. Qed.

(** ** The trimmer against its description *)

Lemma leading_width_ws line : leading_width line = leading_ws line.
Proof.
  unfold leading_ws, lstrip. induction line as [|c r IH]; [reflexivity|].
  cbn [dropwhile leading_width]. destruct (is_space c); [|lia].
  rewrite IH. cbn [length]. fold (lstrip r).
  destruct (lstrip_decompose r) as [ws [Hl _]].
  assert (length r = length ws + length (lstrip r))
    by (rewrite <- length_app; congruence).
  lia.
Qed.

Lemma fold_min_spec d ws :
  let m := fold_right Nat.min d ws in
  m <= d /\ (forall x, In x ws -> m <= x) /\ (m = d \/ In m ws).
Proof.
  induction ws as [|a r [IH1 [IH2 IH3]]]; simpl.
  - split; [lia|]. split; [intros ? []| left; reflexivity].
  - split; [lia|]. split.
    + intros x [<-|Hx]; [lia|]. specialize (IH2 x Hx). lia.
    + destruct (Nat.min_spec a (fold_right Nat.min d r)) as [[_ E]|[_ E]];
        rewrite E; [right; left; reflexivity|].
      destruct IH3 as [H|H]; [left; exact H | right; right; exact H].
Qed.

Lemma minimum_spec ws :
  ws <> [] -> In (minimum ws) ws /\ forall x, In x ws -> minimum ws <= x.
Proof.
  intros Hne. unfold minimum.
  destruct (fold_min_spec (hd 0 ws) ws) as [_ [H2 H3]]. split; [|exact H2].
  destruct H3 as [H|H]; [|exact H]. rewrite H.
  destruct ws; [contradiction Hne; reflexivity | left; reflexivity].
Qed.

Lemma blank_rest_empty n line : lstrip line = [] -> rstrip (skipn n line) = [].
Proof.
  intros H. apply dropwhile_nil in H. apply dropwhile_end_nil.
  rewrite forallb_forall in *. intros c Hc. apply H.
  rewrite <- (firstn_skipn n line). apply in_or_app. right. exact Hc.
Qed.

Lemma nonblank_lstrip line :
  negb (is_blank line) = true <-> truthy (lstrip line) = true.
Proof. unfold is_blank. rewrite negb_involutive, truthy_strip. tauto. Qed.

(** The loop of [trim] finds the minimum of the description, provided the
    lines are no longer than a Python string can be. *)
Lemma indent_is_min_indent_spec (lines : list pystr) :
  Forall (fun l => (Z.of_nat (length l) <= sys_maxsize)%Z) lines ->
  let indent := fold_left indent_step (tl lines) sys_maxsize in
  (filter (fun l => negb (is_blank l)) (tl lines) = [] /\ indent = sys_maxsize)
  \/ ((indent < sys_maxsize)%Z /\ indent = Z.of_nat (min_indent_spec lines)).
Proof.
  intros Hlen. apply Forall_tl in Hlen. cbv zeta. unfold min_indent_spec.
  pose proof (fold_indent (tl lines) sys_maxsize ltac:(unfold sys_maxsize; lia))
    as [Hb [Hw Hm]].
  remember (fold_left indent_step (tl lines) sys_maxsize) as indent eqn:Hi.
  clear Hi.
  destruct (filter (fun l => negb (is_blank l)) (tl lines)) as [|l0 ls] eqn:Ef.
  - left. split; [reflexivity|].
    destruct Hw as [Hw|[line [Hin [Ht _]]]]; [exact Hw|].
    assert (Hf : In line (filter (fun l => negb (is_blank l)) (tl lines)))
      by (apply filter_In; split; [exact Hin | apply nonblank_lstrip; exact Ht]).
    rewrite Ef in Hf. destruct Hf.
  - right. rewrite <- Ef.
    set (ws := map leading_width (filter (fun l => negb (is_blank l)) (tl lines))).
    assert (Hne : ws <> []) by (subst ws; rewrite Ef; discriminate).
    destruct (minimum_spec ws Hne) as [Hin Hle].
    apply in_map_iff in Hin. destruct Hin as [lmin [Hlmin Hfil]].
    apply filter_In in Hfil. destruct Hfil as [Hin Hnb].
    apply nonblank_lstrip in Hnb.
    assert (Hup : (indent <= Z.of_nat (minimum ws))%Z).
    { rewrite <- Hlmin, leading_width_ws. apply Hm; assumption. }
    assert (Hbound : (Z.of_nat (minimum ws) < sys_maxsize)%Z).
    { rewrite <- Hlmin, leading_width_ws.
      rewrite Forall_forall in Hlen. specialize (Hlen lmin Hin).
      assert (leading_ws lmin < length lmin)
        by (apply leading_ws_lt; apply truthy_true; exact Hnb).
      lia. }
    split; [lia|].
    destruct Hw as [Hw|[line [Hin' [Ht Hw]]]]; [lia|].
    assert (minimum ws <= leading_ws line).
    { apply Hle. subst ws. apply in_map_iff. exists line.
      split; [apply leading_width_ws|]. apply filter_In.
      split; [exact Hin' | apply nonblank_lstrip; exact Ht]. }
    lia.
Qed.

Lemma trim_lines_spec (lines : list pystr) :
  Forall (fun l => (Z.of_nat (length l) <= sys_maxsize)%Z) lines ->
  trim_lines lines =
  pop_leading
    (pop_trailing
       (strip (hd [] lines)
        :: map (fun l => rstrip (skipn (min_indent_spec lines) l)) (tl lines))).
Proof.
  intros Hlen. unfold trim_lines.
  destruct (indent_is_min_indent_spec lines Hlen) as [[Hf Hi]|[Hlt Hi]];
    cbv zeta in Hi; rewrite Hi.
  - rewrite Z.ltb_irrefl. f_equal. unfold pop_trailing. rewrite app_nil_r.
    change (strip (hd [] lines)
            :: map (fun l => rstrip (skipn (min_indent_spec lines) l)) (tl lines))
      with ([strip (hd [] lines)]
            ++ map (fun l => rstrip (skipn (min_indent_spec lines) l)) (tl lines)).
    symmetry. apply dropwhile_end_app_all.
    apply forallb_forall. intros x Hx. apply in_map_iff in Hx.
    destruct Hx as [line [<- Hin]].
    rewrite blank_rest_empty; [reflexivity|].
    destruct (truthy (lstrip line)) eqn:Ht.
    + assert (Hin' : In line (filter (fun l => negb (is_blank l)) (tl lines)))
        by (apply filter_In; split; [exact Hin | apply nonblank_lstrip; exact Ht]).
      rewrite Hf in Hin'. destruct Hin'.
    + destruct (lstrip line); [reflexivity | discriminate].
  - rewrite <- Hi. apply Z.ltb_lt in Hlt. rewrite Hlt. rewrite Hi.
    unfold slice_from. rewrite Nat2Z.id. reflexivity.
Qed.

(** C3: on a non-empty docstring [trim] expands the tabs, takes the minimum
    leading-whitespace width over the non-blank lines after the first,
    removes exactly that many characters, all of them whitespace, from each
    of these lines, strips the first line on its own and removes the
    trailing whitespace of every line (the docstring, tabs expanded, being
    of a length a Python string can have). *)
Theorem trim_follows_description (d : pystr) :
  truthy d = true ->
  (Z.of_nat (length (expandtabs d)) <= sys_maxsize)%Z ->
  let lines := splitlines (expandtabs d) in
  let m := min_indent_spec lines in
  trim (Some d) = trim_spec d
  /\ Forall no_tab lines
  /\ (forall line, In line (tl lines) -> is_blank line = false ->
        exists ws, line = ws ++ skipn m line /\ length ws = m
                   /\ Forall (fun c => is_space c = true) ws).
Proof.
  intros Hd Hlen lines m. apply truthy_true in Hd.
  assert (Hlines : Forall (fun l => (Z.of_nat (length l) <= sys_maxsize)%Z) lines).
  { eapply Forall_impl; [|apply splitlines_length]. cbv beta. intros l Hl. lia. }
  split; [|split].
  - rewrite (trim_some d Hd). unfold trim_spec. f_equal.
    apply trim_lines_spec. exact Hlines.
  - apply expandtabs_lines_no_tab.
  - intros line Hin Hnb.
    assert (Hm : m <= leading_ws line).
    { rewrite <- leading_width_ws. subst m. unfold min_indent_spec.
      set (ws := map leading_width (filter (fun l => negb (is_blank l)) (tl lines))).
      assert (Hw : In (leading_width line) ws).
      { subst ws. apply in_map, filter_In. split; [exact Hin|]. rewrite Hnb. reflexivity. }
      assert (Hne : ws <> []) by (intros E; rewrite E in Hw; destruct Hw).
      apply (minimum_spec ws Hne). exact Hw. }
    destruct (lstrip_decompose line) as [ws0 [Hl [Hlen0 Hsp]]].
    exists (firstn m line). split; [symmetry; apply firstn_skipn|]. split.
    + rewrite length_firstn.
      assert (length line = length ws0 + length (lstrip line))
        by (rewrite <- length_app; congruence).
      lia.
    + rewrite Hl, firstn_app.
      replace (m - length ws0) with 0 by lia. rewrite firstn_O, app_nil_r.
      rewrite <- (firstn_skipn m ws0) in Hsp. apply Forall_app in Hsp.
      exact (proj1 Hsp).
Qed.

Lemma trim_follows_description_witness :
  let d := str "Summary." ++ [LF] ++ [TAB] ++ str "first" ++ [LF]
           ++ str "          second  " ++ [LF] in
  trim (Some d) = trim_spec d
  /\ min_indent_spec (splitlines (expandtabs d)) = 8
  /\ trim (Some d) = str "Summary." ++ [LF] ++ str "first" ++ [LF] ++ str "  second".
Proof.
  cbv zeta. split; [|split; reflexivity].
  apply (trim_follows_description
           (str "Summary." ++ [LF] ++ [TAB] ++ str "first" ++ [LF]
            ++ str "          second  " ++ [LF])).
  - reflexivity.
  - vm_compute. discriminate.
Defined.

(** ** The directive *)

Lemma pystr_eqb_eq (a b : pystr) : pystr_eqb a b = true <-> a = b.
Proof.
  revert b. induction a as [|x a IH]; intros [|y b]; simpl;
    try (split; [discriminate | intros H; discriminate H]); [tauto|].
  rewrite andb_true_iff, N.eqb_eq, IH. split.
  - intros [-> ->]. reflexivity.
  - intros H. injection H as -> ->. split; reflexivity.
Qed.

Lemma pystr_eqb_neq (a b : pystr) : a <> b -> pystr_eqb a b = false.
Proof.
  intros H. destruct (pystr_eqb a b) eqn:E; [|reflexivity].
  apply pystr_eqb_eq in E. contradiction.
Qed.

Lemma contains_In (l : list pystr) (x : pystr) : contains l x = true <-> In x l.
Proof.
  unfold contains. rewrite existsb_exists. split.
  - intros [y [Hy E]]. apply pystr_eqb_eq in E. subst y. exact Hy.
  - intros H. exists x. split; [exact H | apply pystr_eqb_eq; reflexivity].
Qed.

Lemma fold_append_child (l : list node) tag atts (ch : list node) :
  fold_left append_child l (Element tag atts ch) = Element tag atts (ch ++ l).
Proof.
  revert ch. induction l as [|c l IH]; intros ch; simpl.
  - rewrite app_nil_r. reflexivity.
  - rewrite IH, <- app_assoc. reflexivity.
Qed.

Section DirectiveProperties.

Variable ext : externals.

Lemma rst2node_some (doc_name data : pystr) :
  data <> [] -> exists fragment, rst2node ext doc_name data = Some fragment.
Proof.
  intros Hd. unfold rst2node.
  destruct data as [|c d]; [contradiction Hd; reflexivity|]. simpl negb. cbv iota.
  destruct (Nat.eqb_spec (length (rst_parse ext (str "<" ++ doc_name ++ str ">") (c :: d))) 1)
    as [E|_].
  - destruct (rst_parse ext (str "<" ++ doc_name ++ str ">") (c :: d)) as [|n l];
      [discriminate|]. exists n. reflexivity.
  - eexists. reflexivity.
Qed.

(** C7: [rst2node] returns nothing for an empty text; the one top-level
    node when the parse yields exactly one; and a single paragraph holding
    all the top-level nodes in their order when it yields several. *)
Theorem rst2node_cases (doc_name data : pystr) :
  let parsed := rst_parse ext (str "<" ++ doc_name ++ str ">") data in
  (data = [] -> rst2node ext doc_name data = None)
  /\ (data <> [] -> forall n, parsed = [n] -> rst2node ext doc_name data = Some n)
  /\ (data <> [] -> 1 < length parsed ->
      rst2node ext doc_name data = Some (Element "paragraph" [] parsed)).
Proof.
  cbv zeta. unfold rst2node. split; [|split].
  - intros ->. reflexivity.
  - intros Hd n Hp. destruct data; [contradiction Hd; reflexivity|].
    simpl negb. cbv iota. rewrite Hp. reflexivity.
  - intros Hd Hlen. destruct data; [contradiction Hd; reflexivity|].
    simpl negb. cbv iota.
    destruct (Nat.eqb_spec (length (rst_parse ext (str "<" ++ doc_name ++ str ">") (n :: data))) 1)
      as [E|_]; [lia|].
    rewrite fold_append_child. reflexivity.
Qed.

(** C10: for a text that is not empty and whose parse yields no top-level
    node, [rst2node] returns an empty paragraph; it returns nothing for the
    empty text only. *)
Theorem rst2node_empty_parse (doc_name data : pystr) :
  (data <> [] ->
   rst_parse ext (str "<" ++ doc_name ++ str ">") data = [] ->
   rst2node ext doc_name data = Some (Element "paragraph" [] []))
  /\ (rst2node ext doc_name data = None <-> data = []).
Proof.
  split.
  - intros Hd Hp. unfold rst2node.
    destruct data; [contradiction Hd; reflexivity|].
    simpl negb. cbv iota. rewrite Hp. reflexivity.
  - split.
    + intros H. destruct data as [|c d]; [reflexivity|].
      destruct (rst2node_some doc_name (c :: d)) as [f Hf]; [discriminate|].
      rewrite Hf in H. discriminate.
    + intros ->. reflexivity.
Qed.

(** *** Route extraction *)

Lemma map_routes_inner undocumented (tuples : list route_tuple) acc :
  fold_left
    (fun mapped_routes (t : route_tuple) =>
       let '(name, pattern, view, method, docs) := t in
       if is_undocumented undocumented view then mapped_routes
       else mapped_routes
            ++ [{| name := name; pattern := pattern; view := view;
                   method := method; docs := trim docs |}])
    tuples acc
  = acc ++ map record_of_tuple
             (filter (fun t => negb (is_undocumented undocumented (tuple_view t)))
                tuples).
Proof.
  revert acc.
  induction tuples as [|[[[[n p] v] m] d] rest IH]; intros acc; simpl.
  - rewrite app_nil_r. reflexivity.
  - rewrite IH. destruct (is_undocumented undocumented v); simpl; [reflexivity|].
    rewrite <- app_assoc. reflexivity.
Qed.

Lemma map_routes_outer registry undocumented routes acc :
  fold_left
    (fun mapped_routes route =>
       fold_left
         (fun mapped_routes (t : route_tuple) =>
            let '(name, pattern, view, method, docs) := t in
            if is_undocumented undocumented view then mapped_routes
            else mapped_routes
                 ++ [{| name := name; pattern := pattern; view := view;
                        method := method; docs := trim docs |}])
         (get_route_data ext route registry) mapped_routes)
    routes acc
  = acc ++ map record_of_tuple
             (filter (fun t => negb (is_undocumented undocumented (tuple_view t)))
                (flat_map (fun route => get_route_data ext route registry) routes)).
Proof.
  revert acc. induction routes as [|r rest IH]; intros acc; simpl.
  - rewrite app_nil_r. reflexivity.
  - rewrite IH, map_routes_inner, filter_app, map_app, app_assoc.
    reflexivity.
Qed.

Lemma map_routes_filter registry undocumented routes :
  map_routes ext registry undocumented routes
  = map record_of_tuple
      (filter (fun t => negb (is_undocumented undocumented (tuple_view t)))
         (flat_map (fun route => get_route_data ext route registry) routes)).
Proof. unfold map_routes. rewrite map_routes_outer. reflexivity. Qed.

(** C4: once the application is bootstrapped, [get_routes] returns the
    records of exactly those tuples whose view is not in [undocumented], in
    the order of the mapper; when [undocumented] names the view of every
    tuple, it returns no record. *)
Theorem get_routes_drops_undocumented (ini_file : pystr)
    (undocumented : option (list pystr)) (registry : Registry ext) (w : world) :
  bootstrap ext ini_file = inr registry ->
  let tuples :=
    flat_map (fun route => get_route_data ext route registry)
      (mapper_routes (get_routes_mapper ext registry)) in
  fst (get_routes ext ini_file undocumented w)
  = Ok (map record_of_tuple
          (filter (fun t => negb (is_undocumented undocumented (tuple_view t)))
             tuples))
  /\ (forall names, undocumented = Some names ->
        (forall t, In t tuples -> In (tuple_view t) names) ->
        fst (get_routes ext ini_file undocumented w) = Ok []).
Proof.
  intros Hb tuples.
  assert (H : fst (get_routes ext ini_file undocumented w)
              = Ok (map record_of_tuple
                      (filter (fun t => negb (is_undocumented undocumented (tuple_view t)))
                         tuples))).
  { unfold get_routes, bind, log_call. rewrite Hb. simpl.
    rewrite map_routes_filter. reflexivity. }
  split; [exact H|].
  intros names -> Hall. rewrite H. f_equal.
  replace (filter _ tuples) with (@nil route_tuple); [reflexivity|].
  symmetry. clear H. induction tuples as [|t rest IH]; [reflexivity|].
  simpl. assert (Ht : contains names (tuple_view t) = true)
    by (apply contains_In, Hall; left; reflexivity).
  rewrite Ht. simpl. apply IH. intros t' Ht'. apply Hall. right. exact Ht'.
Qed.

(** *** The entry point *)

(** C5: with a [format] option other than ['custom'] and ['httpdomain'],
    [run] raises: the routes are extracted first (the application is
    bootstrapped, and a failure of the bootstrap is the error that is
    raised), and only then the unsupported format is reported. *)
Theorem run_unsupported_format (ini_file : pystr) (options : directive_options)
    (f : pystr) (w : world) :
  opt_format options = Some f ->
  f <> str "custom" -> f <> str "httpdomain" ->
  let undocumented := option_map split_ws (opt_undoc_endpoints options) in
  let w' := {| serialno := serialno w; calls := calls w ++ [Bootstrap ini_file] |} in
  match bootstrap ext ini_file with
  | inr _ =>
      (exists routes, get_routes ext ini_file undocumented w = (Ok routes, w'))
      /\ run ext ini_file options w
         = (Raise (Exception (str "Unsupported format " ++ f)), w')
  | inl msg =>
      get_routes ext ini_file undocumented w = (Raise (BootstrapError msg), w')
      /\ run ext ini_file options w = (Raise (BootstrapError msg), w')
  end.
Proof.
  intros Hf Hc Hh. cbv zeta. unfold run. rewrite Hf.
  unfold get_routes, bind, log_call.
  destruct (bootstrap ext ini_file) as [msg|registry]; simpl.
  - split; reflexivity.
  - rewrite (pystr_eqb_neq _ _ Hc), (pystr_eqb_neq _ _ Hh).
    split; [eexists|]; reflexivity.
Qed.

(** *** The tabular renderer *)

Lemma custom_section_ok (route_no : nat) (r : route_record) :
  is_custom_section ext r (custom_section ext route_no r).
Proof.
  unfold custom_section.
  assert (Htitle : astext (text_element "title" (pattern r)) = pattern r)
    by (unfold text_element; destruct (pattern r); reflexivity).
  destruct (docs r) as [|c d] eqn:Ed; cbn [truthy].
  - split; [reflexivity|]. do 3 eexists. split; [reflexivity|].
    split; [reflexivity|]. split; [exact Htitle|].
    do 4 (split; [reflexivity|]). split.
    + intros _. reflexivity.
    + intros H. contradiction.
  - destruct (rst2node_some (view r) (c :: d)) as [f Hf]; [discriminate|].
    rewrite Hf. split; [reflexivity|]. do 3 eexists. split; [reflexivity|].
    split; [reflexivity|]. split; [exact Htitle|].
    do 4 (split; [reflexivity|]). split.
    + intros H. rewrite H in Ed. discriminate Ed.
    + intros _. exists f. rewrite Ed. split; [exact Hf | reflexivity].
Qed.

Lemma for_each_cons {A S} (x : A) (rest : list A) (body : S -> A -> M S)
    (s : S) (w : world) :
  for_each (x :: rest) body s w
  = match body s x w with
    | (Ok s', w') => for_each rest body s' w'
    | (Raise e, w') => (Raise e, w')
    end.
Proof. reflexivity. Qed.

Lemma custom_body_eq (custom_nodes : list node) (r : route_record) (w : world) :
  (route_no <- new_serialno ;;
   ret (custom_nodes ++ [custom_section ext route_no r])) w
  = (Ok (custom_nodes ++ [custom_section ext (serialno w) r]),
     {| serialno := S (serialno w); calls := calls w |}).
Proof. reflexivity. Qed.

Lemma make_custom_rst_loop (routes : list route_record) :
  forall (custom_nodes : list node) (w : world),
  exists nodes,
    for_each routes
      (fun custom_nodes mapped_route =>
         route_no <- new_serialno ;;
         ret (custom_nodes ++ [custom_section ext route_no mapped_route]))
      custom_nodes w
    = (Ok (custom_nodes ++ nodes),
       {| serialno := serialno w + length routes; calls := calls w |})
    /\ Forall2 (is_custom_section ext) routes nodes.
Proof.
  induction routes as [|r rest IH]; intros custom_nodes w.
  - exists []. split; [|constructor]. simpl. unfold ret.
    rewrite app_nil_r, Nat.add_0_r. destruct w; reflexivity.
  - rewrite for_each_cons. cbv beta. rewrite custom_body_eq.
    destruct (IH (custom_nodes ++ [custom_section ext (serialno w) r])
                {| serialno := S (serialno w); calls := calls w |})
      as [nodes [Hrun Hall]].
    exists (custom_section ext (serialno w) r :: nodes). split.
    + rewrite Hrun. cbn [serialno calls length].
      rewrite <- app_assoc, Nat.add_succ_r. reflexivity.
    + constructor; [apply custom_section_ok | exact Hall].
Qed.

(** C6: [make_custom_rst] returns one section per record, in the order of
    the records; each has the pattern as its title, then the table with two
    columns of widths 10 and 90 and the rows Module, Request Method and
    Route Name, then the one node [rst2node] gives for the docs when they
    are not empty, and nothing more when they are. *)
Theorem make_custom_rst_sections (routes : list route_record) (w : world) :
  exists nodes,
    make_custom_rst ext routes w
    = (Ok nodes, {| serialno := serialno w + length routes; calls := calls w |})
    /\ Forall2 (is_custom_section ext) routes nodes.
Proof.
  destruct (make_custom_rst_loop routes [] w) as [nodes H].
  exists nodes. exact H.
Qed.

(** *** The HTTP-domain renderer *)

Lemma result_append (directives : list pystr) (result : list (pystr * pystr)) :
  fold_left (fun result line => result ++ [(line, str "<autopyramid>")])
    directives result
  = result ++ map (fun line => (line, str "<autopyramid>")) directives.
Proof.
  revert result. induction directives as [|l rest IH]; intros result; simpl.
  - rewrite app_nil_r. reflexivity.
  - rewrite IH, <- app_assoc. reflexivity.
Qed.

Lemma httpdomain_step_eq result children route :
  httpdomain_step ext (result, children) route
  = (result ++ route_block ext route,
     children ++ nested_parse_with_titles ext (result ++ route_block ext route)).
Proof. unfold httpdomain_step, route_block. rewrite result_append. reflexivity. Qed.

Lemma flat_map_seq_shift {A} (f : nat -> list A) (a n : nat) :
  flat_map f (seq (S a) n) = flat_map (fun k => f (S k)) (seq a n).
Proof.
  revert a. induction n as [|n IH]; intros a; simpl; [reflexivity|].
  rewrite IH. reflexivity.
Qed.

Lemma httpdomain_loop (routes : list route_record) :
  forall result children,
  fold_left (httpdomain_step ext) routes (result, children)
  = (result ++ flat_map (route_block ext) routes,
     children
     ++ flat_map
          (fun k => nested_parse_with_titles ext
                      (result ++ flat_map (route_block ext) (firstn k routes)))
          (seq 1 (length routes))).
Proof.
  induction routes as [|r rest IH]; intros result children.
  - simpl. rewrite !app_nil_r. reflexivity.
  - cbn [fold_left]. rewrite httpdomain_step_eq, IH. f_equal.
    + cbn [flat_map]. rewrite app_assoc. reflexivity.
    + cbn [length seq flat_map firstn]. rewrite app_nil_r, <- app_assoc.
      f_equal. f_equal. rewrite (flat_map_seq_shift _ 1).
      apply flat_map_ext. intros k. cbn [firstn flat_map].
      rewrite app_assoc. reflexivity.
Qed.

(** What [make_httpdomain_rst] returns: after each record, the nodes of
    everything gathered in [result] so far, the blocks of the earlier
    records included. *)
Lemma make_httpdomain_rst_reparses (routes : list route_record) :
  make_httpdomain_rst ext routes
  = flat_map
      (fun k => nested_parse_with_titles ext
                  (flat_map (route_block ext) (firstn k routes)))
      (seq 1 (length routes)).
Proof. unfold make_httpdomain_rst. rewrite httpdomain_loop. reflexivity. Qed.

Corollary make_httpdomain_rst_two (r1 r2 : route_record) :
  make_httpdomain_rst ext [r1; r2]
  = nested_parse_with_titles ext (route_block ext r1)
    ++ nested_parse_with_titles ext (route_block ext r1 ++ route_block ext r2).
Proof.
  rewrite make_httpdomain_rst_reparses. simpl. rewrite !app_nil_r. reflexivity.
Qed.

End DirectiveProperties.

(** ** The properties on the small application *)

(** C1: [make_httpdomain_rst] does not parse each record's block on its
    own.  [result] is created once and parsed after every record, so for the
    records [route_a], [route_b] the nodes of [route_a] come out twice. *)
Theorem make_httpdomain_rst_repeats_earlier_records :
  make_httpdomain_rst demo [route_a; route_b]
  = make_httpdomain_rst demo [route_a]
    ++ make_httpdomain_rst demo [route_a] ++ make_httpdomain_rst demo [route_b]
  /\ make_httpdomain_rst demo [route_a; route_b]
     <> make_httpdomain_rst demo [route_a] ++ make_httpdomain_rst demo [route_b]
  /\ map astext (make_httpdomain_rst demo [route_a; route_b])
     = [str ".. http:get:: /a"; str "Doc A";
        str ".. http:get:: /a"; str "Doc A"; str ".. http:post:: /b"].
Proof.
  split; [vm_compute; reflexivity|].
  split; [vm_compute; intros H; discriminate H | vm_compute; reflexivity].
Qed.

Lemma get_routes_drops_undocumented_witness :
  bootstrap demo (str "development.ini") = inr [demo_home]
  /\ fst (get_routes demo (str "development.ini")
            (Some (split_ws (str "views.home"))) world0) = Ok []
  /\ (exists r1 r2,
        fst (get_routes demo (str "development.ini") None world0) = Ok [r1; r2]
        /\ pattern r1 = str "/" /\ pattern r2 = str "/").
Proof.
  split; [reflexivity|]. split.
  - apply (proj2 (get_routes_drops_undocumented demo (str "development.ini")
                    (Some (split_ws (str "views.home"))) [demo_home] world0
                    eq_refl)
             (split_ws (str "views.home")) eq_refl).
    intros t Ht. simpl in Ht. destruct Ht as [<-|[<-|[]]]; left; reflexivity.
  - do 2 eexists. split; [|split].
    + rewrite (proj1 (get_routes_drops_undocumented demo (str "development.ini")
                        None [demo_home] world0 eq_refl)).
      reflexivity.
    + reflexivity.
    + reflexivity.
Defined.

Lemma run_unsupported_format_witness :
  run demo (str "development.ini")
    {| opt_format := Some (str "json"); opt_undoc_endpoints := None |} world0
  = (Raise (Exception (str "Unsupported format json")),
     {| serialno := 0; calls := [Bootstrap (str "development.ini")] |})
  /\ run demo (str "production.ini")
       {| opt_format := Some (str "json"); opt_undoc_endpoints := None |} world0
     = (Raise (BootstrapError (str "no such file")),
        {| serialno := 0; calls := [Bootstrap (str "production.ini")] |}).
Proof.
  split.
  - apply (run_unsupported_format demo (str "development.ini")
             {| opt_format := Some (str "json"); opt_undoc_endpoints := None |}
             (str "json") world0 eq_refl);
      vm_compute; intros H; discriminate H.
  - apply (run_unsupported_format demo (str "production.ini")
             {| opt_format := Some (str "json"); opt_undoc_endpoints := None |}
             (str "json") world0 eq_refl);
      vm_compute; intros H; discriminate H.
Defined.

Lemma rst2node_cases_witness :
  rst2node demo (str "views.a") (str "") = None
  /\ rst2node demo (str "views.a") (str "one") = Some (paragraph_of (str "one"))
  /\ rst2node demo (str "views.a") (str "one" ++ [LF] ++ str "two")
     = Some (Element "paragraph" []
               [paragraph_of (str "one"); paragraph_of (str "two")]).
Proof.
  split; [|split].
  - apply (proj1 (rst2node_cases demo (str "views.a") (str ""))). reflexivity.
  - apply (proj1 (proj2 (rst2node_cases demo (str "views.a") (str "one")))).
    + vm_compute. intros H. discriminate H.
    + reflexivity.
  - apply (proj2 (proj2 (rst2node_cases demo (str "views.a")
                           (str "one" ++ [LF] ++ str "two")))).
    + vm_compute. intros H. discriminate H.
    + vm_compute. lia.
Defined.

Lemma rst2node_empty_parse_witness :
  rst_parse demo (str "<views.a>") (str "   ") = []
  /\ rst2node demo (str "views.a") (str "   ") = Some (Element "paragraph" [] []).
Proof.
  split; [reflexivity|].
  apply (proj1 (rst2node_empty_parse demo (str "views.a") (str "   "))).
  - vm_compute. intros H. discriminate H.
  - reflexivity.
Defined.

(** The tabular renderer on a record with docs and a record without. *)
Example make_custom_rst_demo :
  exists s1 s2,
    fst (make_custom_rst demo [route_a; route_b] world0) = Ok [s1; s2]
    /\ map tagname_of (children_of s1) = ["title"; "table"; "paragraph"]
    /\ map tagname_of (children_of s2) = ["title"; "table"]
    /\ attribute "ids" s1 = Some (AStrings [str "route-0"])
    /\ attribute "ids" s2 = Some (AStrings [str "route-1"])
    /\ table_rows (nth 1 (children_of s2) (Text []))
       = [[str "Module"; str "views.b"]; [str "Request Method"; str "post"];
          [str "Route Name"; str "b"]].
Proof. do 2 eexists. repeat split; reflexivity. Qed.

(** The directive on the application, with its view left undocumented. *)
Example run_demo_undocumented :
  fst (run demo (str "development.ini")
         {| opt_format := None; opt_undoc_endpoints := Some (str "views.home") |}
         world0) = Ok [].
Proof. reflexivity. Qed.

(** * Further properties of the trimmer *)

Lemma trim_join_all (d : pystr) :
  trim (Some d) = join [LF] (trim_lines (splitlines (expandtabs d))).
Proof. destruct d; reflexivity. Qed.

Lemma splitlines_trim (d : pystr) :
  splitlines (trim (Some d)) = trim_lines (splitlines (expandtabs d)).
Proof.
  rewrite trim_join_all. set (lines := splitlines (expandtabs d)).
  apply splitlines_join.
  - apply trim_lines_Forall, splitlines_no_linebreak.
  - intros Hne. destruct (trim_lines_ends lines) as [H|[_ H]];
      [contradiction | exact H].
Qed.

Lemma expandtabs_from_no_linebreak tabsize column s :
  no_linebreak s -> no_linebreak (expandtabs_from tabsize column s).
Proof.
  intros H. revert column. induction H as [|c r Hc Hr IH]; intros column; simpl.
  - constructor.
  - destruct (c =? TAB)%N.
    + destruct (0 <? tabsize)%nat; [|apply IH].
      apply Forall_app. split; [|apply IH].
      apply Forall_forall. intros x Hx. apply repeat_spec in Hx. subst x.
      reflexivity.
    + constructor; [exact Hc | apply IH].
Qed.

Lemma expandtabs_nonempty s : s <> [] -> expandtabs s <> [].
Proof.
  destruct s as [|c r]; [intros H; contradiction H; reflexivity|]. intros _.
  unfold expandtabs. simpl. destruct (c =? TAB)%N; discriminate.
Qed.

(** A docstring of one line comes back stripped, its tabs expanded. *)
Theorem trim_single_line (d : pystr) :
  no_linebreak d -> trim (Some d) = strip (expandtabs d).
Proof.
  intros Hd. destruct d as [|c r]; [reflexivity|].
  rewrite trim_join_all.
  rewrite splitlines_one_line;
    [| apply expandtabs_from_no_linebreak; exact Hd
     | apply expandtabs_nonempty; discriminate].
  unfold trim_lines. cbn [hd tl fold_left].
  rewrite Z.ltb_irrefl, app_nil_r. unfold pop_trailing, pop_leading.
  destruct (strip (expandtabs (c :: r))); reflexivity.
Qed.

Lemma trim_single_line_witness :
  trim (Some ([TAB] ++ str "Return the  routes. "))
  = str "Return the  routes.".
Proof.
  rewrite (trim_single_line ([TAB] ++ str "Return the  routes. ")).
  - reflexivity.
  - repeat constructor.
Defined.

(** No tab is left in the output of [trim]. *)
Theorem trim_no_tab (x : option pystr) : no_tab (trim x).
Proof.
  destruct x as [d|]; [|constructor]. rewrite trim_join_all.
  apply join_Forall; [repeat constructor; discriminate|].
  apply trim_lines_Forall, expandtabs_lines_no_tab.
Qed.

(** Whatever line terminators the docstring uses, the only line boundary
    left in the output of [trim] is the line feed. *)
Theorem trim_line_feeds_only (x : option pystr) :
  Forall (fun c => is_linebreak c = true -> c = LF) (trim x).
Proof.
  destruct x as [d|]; [|constructor]. rewrite trim_join_all.
  apply join_Forall; [repeat constructor|].
  eapply Forall_impl; [|apply trim_lines_Forall, splitlines_no_linebreak].
  intros l Hl. eapply Forall_impl; [|exact Hl].
  cbv beta. intros c Hc Hb. rewrite Hc in Hb. discriminate.
Qed.

(** No line of the output of [trim] ends in whitespace. *)
Theorem trim_lines_end_in_text (x : option pystr) :
  Forall (fun line => rstrip line = line) (splitlines (trim x)).
Proof.
  destruct x as [d|]; [|constructor]. rewrite splitlines_trim.
  apply trim_lines_rstripped.
Qed.

Lemma expandtabs_from_chars tabsize column s :
  Forall (fun c => c = SPACE \/ In c s) (expandtabs_from tabsize column s).
Proof.
  revert column. induction s as [|c r IH]; intros column; simpl; [constructor|].
  assert (Hr : forall col, Forall (fun x => x = SPACE \/ c = x \/ In x r)
                             (expandtabs_from tabsize col r)).
  { intros col. eapply Forall_impl; [|apply IH]. cbv beta. tauto. }
  destruct (c =? TAB)%N.
  - destruct (0 <? tabsize)%nat; [|apply Hr].
    apply Forall_app. split; [|apply Hr].
    apply Forall_forall. intros x Hx. apply repeat_spec in Hx. left. exact Hx.
  - constructor; [right; left; reflexivity | apply Hr].
Qed.

(** [trim] adds nothing of its own: every character of its output is a line
    feed, a space, or a character of the docstring. *)
Theorem trim_adds_no_text (d : pystr) :
  Forall (fun c => c = LF \/ c = SPACE \/ In c d) (trim (Some d)).
Proof.
  rewrite trim_join_all.
  apply join_Forall; [repeat constructor|].
  eapply Forall_impl;
    [|apply trim_lines_Forall, splitlines_Forall, expandtabs_from_chars].
  intros l Hl. eapply Forall_impl; [|exact Hl]. cbv beta. tauto.
Qed.



(** ** Indentation of the continuation lines *)












(** * Further properties of the directive *)

(** ** The option [undoc-endpoints] *)

Lemma split_ws_aux_blank (cur s : pystr) :
  Forall (fun c => is_space c = true) s ->
  split_ws_aux cur s = if truthy cur then [cur] else [].
Proof.
  intros H. revert cur. induction H as [|c r Hc Hr IH]; intros cur; simpl.
  - reflexivity.
  - rewrite Hc, IH. simpl. apply app_nil_r.
Qed.

Lemma split_ws_aux_words (cur s : pystr) :
  Forall (fun c => is_space c = false) cur ->
  Forall is_word (split_ws_aux cur s).
Proof.
  revert cur. induction s as [|c r IH]; intros cur Hcur; simpl.
  - destruct cur as [|x cur']; simpl; [constructor|].
    constructor; [split; [discriminate | exact Hcur] | constructor].
  - destruct (is_space c) eqn:Ec.
    + apply Forall_app. split; [|apply IH; constructor].
      destruct cur as [|x cur']; simpl; [constructor|].
      constructor; [split; [discriminate | exact Hcur] | constructor].
    + apply IH. apply Forall_app. split; [exact Hcur|].
      constructor; [exact Ec | constructor].
Qed.

Lemma split_ws_aux_word (cur name rest : pystr) :
  Forall (fun c => is_space c = false) name ->
  split_ws_aux cur (name ++ rest) = split_ws_aux (cur ++ name) rest.
Proof.
  intros H. revert cur. induction H as [|c n Hc Hn IH]; intros cur; simpl.
  - rewrite app_nil_r. reflexivity.
  - rewrite Hc, IH, <- app_assoc. reflexivity.
Qed.

Lemma split_ws_aux_space (cur rest : pystr) :
  split_ws_aux cur (SPACE :: rest)
  = (if truthy cur then [cur] else []) ++ split_ws_aux [] rest.
Proof. reflexivity. Qed.

(** Every name read from the option is a word. *)
Lemma split_ws_words (s : pystr) : Forall is_word (split_ws s).
Proof. apply split_ws_aux_words. constructor. Qed.

(** Names written with single spaces between them are read back as they
    were written. *)
Lemma split_ws_join (names : list pystr) :
  Forall is_word names -> split_ws (join [SPACE] names) = names.
Proof.
  unfold split_ws. induction 1 as [|n rest [Hne Hn] Hrest IH]; [reflexivity|].
  destruct rest as [|n2 rest'].
  - simpl. rewrite <- (app_nil_r n) at 1.
    rewrite split_ws_aux_word by exact Hn. simpl.
    destruct n; [contradiction Hne; reflexivity | reflexivity].
  - change (join [SPACE] (n :: n2 :: rest'))
      with (n ++ SPACE :: join [SPACE] (n2 :: rest')).
    rewrite split_ws_aux_word by exact Hn.
    rewrite split_ws_aux_space, IH.
    destruct n; [contradiction Hne; reflexivity | reflexivity].
Qed.

Lemma split_ws_join_witness :
  split_ws (join [SPACE] [str "views.home"; str "views.about"])
  = [str "views.home"; str "views.about"].
Proof.
  apply (split_ws_join [str "views.home"; str "views.about"]).
  repeat constructor; discriminate.
Defined.

(** Only a view whose identifier is a word can be left out through the
    option: an empty identifier, or one that holds a whitespace character,
    never matches. *)
Theorem undocumented_views_are_words (s view : pystr) :
  is_undocumented (option_map split_ws (Some s)) view = true -> is_word view.
Proof.
  simpl. intros H. apply contains_In in H.
  assert (Hw : Forall is_word (split_ws s))
    by (apply split_ws_aux_words; constructor).
  rewrite Forall_forall in Hw. auto.
Qed.

Lemma undocumented_views_are_words_witness :
  is_undocumented (option_map split_ws (Some (str " views.home  views.about ")))
    (str "views.about") = true
  /\ is_word (str "views.about").
Proof.
  split; [reflexivity|].
  apply (undocumented_views_are_words (str " views.home  views.about ")
           (str "views.about")).
  reflexivity.
Defined.

(** ** Section identifiers *)

Lemma ascii_of_N_of_ascii (l : list ascii) :
  map ascii_of_N (map N_of_ascii l) = l.
Proof.
  induction l as [|a l IH]; [reflexivity|].
  simpl. rewrite ascii_N_embedding, IH. reflexivity.
Qed.

Lemma str_inj (s1 s2 : string) : str s1 = str s2 -> s1 = s2.
Proof.
  unfold str. intros H.
  apply (f_equal (map ascii_of_N)) in H. rewrite !ascii_of_N_of_ascii in H.
  apply (f_equal string_of_list_ascii) in H.
  rewrite !string_of_list_ascii_of_string in H. exact H.
Qed.

Lemma decimal_inj (a b : nat) : decimal a = decimal b -> a = b.
Proof.
  unfold decimal. intros H. apply str_inj in H.
  apply (f_equal NilEmpty.uint_of_string) in H.
  rewrite !NilEmpty.usu in H. injection H as H.
  apply (f_equal Nat.of_uint) in H.
  rewrite !DecimalNat.Unsigned.of_to in H. exact H.
Qed.

Lemma route_id_inj (a b : nat) : route_id a = route_id b -> a = b.
Proof. unfold route_id. intros H. apply app_inv_head in H. apply decimal_inj, H. Qed.

Lemma NoDup_map_inj {A B} (f : A -> B) (l : list A) :
  (forall a b, f a = f b -> a = b) -> NoDup l -> NoDup (map f l).
Proof.
  intros Hf. induction 1 as [|x l Hx Hl IH]; simpl; constructor; [|exact IH].
  intros Hin. apply in_map_iff in Hin. destruct Hin as [y [Hy Hyl]].
  apply Hf in Hy. subst y. contradiction.
Qed.

(** ** Table rows *)

Lemma get_row_loop (texts : list pystr) (entries : list node) :
  fold_left
    (fun row text =>
       let node := Element "paragraph" [] [Text text] in
       append_child row (Element "entry" [] [node]))
    texts (Element "row" [] entries)
  = Element "row" []
      (entries
       ++ map (fun text => Element "entry" [] [Element "paragraph" [] [Text text]])
            texts).
Proof.
  revert entries. induction texts as [|t rest IH]; intros entries; simpl.
  - rewrite app_nil_r. reflexivity.
  - rewrite IH, <- app_assoc. reflexivity.
Qed.

(** A row has one entry per text, in the order of the texts, whatever their
    number, and the text of each entry is the text it was built from. *)
Theorem get_row_entries (column_texts : list pystr) :
  tagname_of (get_row column_texts) = "row"
  /\ map tagname_of (children_of (get_row column_texts))
     = map (fun _ => "entry") column_texts
  /\ map astext (children_of (get_row column_texts)) = column_texts.
Proof.
  unfold get_row. rewrite get_row_loop. cbn [app children_of tagname_of].
  split; [reflexivity|]. rewrite !map_map. split.
  - reflexivity.
  - rewrite <- (map_id column_texts) at 2. apply map_ext. reflexivity.
Qed.

Section DirectiveComposition.

Variable ext : externals.

(** ** The tabular renderer, section by section *)

Lemma numbered_sections_cons (first : nat) (r : route_record)
    (rest : list route_record) :
  numbered_sections ext first (r :: rest)
  = custom_section ext first r :: numbered_sections ext (S first) rest.
Proof. reflexivity. Qed.

Lemma make_custom_rst_numbered_loop (routes : list route_record) :
  forall (custom_nodes : list node) (w : world),
    for_each routes
      (fun custom_nodes mapped_route =>
         route_no <- new_serialno ;;
         ret (custom_nodes ++ [custom_section ext route_no mapped_route]))
      custom_nodes w
    = (Ok (custom_nodes ++ numbered_sections ext (serialno w) routes),
       {| serialno := serialno w + length routes; calls := calls w |}).
Proof.
  induction routes as [|r rest IH]; intros custom_nodes w.
  - simpl. unfold ret. rewrite app_nil_r, Nat.add_0_r. destruct w; reflexivity.
  - rewrite for_each_cons. cbv beta. rewrite custom_body_eq, IH.
    rewrite numbered_sections_cons. cbn [serialno calls length].
    rewrite <- app_assoc, Nat.add_succ_r. reflexivity.
Qed.

Lemma make_custom_rst_numbered (routes : list route_record) (w : world) :
  make_custom_rst ext routes w
  = (Ok (numbered_sections ext (serialno w) routes),
     {| serialno := serialno w + length routes; calls := calls w |}).
Proof. unfold make_custom_rst. rewrite make_custom_rst_numbered_loop. reflexivity. Qed.

Lemma custom_section_ids (route_no : nat) (r : route_record) :
  attribute "ids" (custom_section ext route_no r)
  = Some (AStrings [route_id route_no]).
Proof.
  unfold custom_section. destruct (truthy (docs r)); [|reflexivity].
  destruct (rst2node ext (view r) (docs r)); reflexivity.
Qed.

Lemma numbered_sections_ids (routes : list route_record) (first : nat) :
  map (attribute "ids") (numbered_sections ext first routes)
  = map (fun n => Some (AStrings [route_id n])) (seq first (length routes)).
Proof.
  revert first. induction routes as [|r rest IH]; intros first; [reflexivity|].
  rewrite numbered_sections_cons. cbn [map length seq].
  rewrite custom_section_ids, IH. reflexivity.
Qed.

(** The sections of one call carry the identifiers [route-n] for the
    consecutive serial numbers from the one the build has reached, so no two
    of them share an identifier. *)
Theorem make_custom_rst_ids (routes : list route_record) (w : world) :
  exists nodes,
    fst (make_custom_rst ext routes w) = Ok nodes
    /\ map (attribute "ids") nodes
       = map (fun n => Some (AStrings [route_id n]))
           (seq (serialno w) (length routes))
    /\ NoDup (map (attribute "ids") nodes).
Proof.
  exists (numbered_sections ext (serialno w) routes).
  rewrite make_custom_rst_numbered, numbered_sections_ids.
  split; [reflexivity|]. split; [reflexivity|].
  apply NoDup_map_inj; [|apply seq_NoDup].
  intros a b H. apply route_id_inj. congruence.
Qed.

Lemma numbered_sections_app (routes1 routes2 : list route_record) (first : nat) :
  numbered_sections ext first (routes1 ++ routes2)
  = numbered_sections ext first routes1
    ++ numbered_sections ext (first + length routes1) routes2.
Proof.
  revert first. induction routes1 as [|r rest IH]; intros first.
  - simpl. rewrite Nat.add_0_r. reflexivity.
  - cbn [app length]. rewrite !numbered_sections_cons, IH, Nat.add_succ_r.
    reflexivity.
Qed.

(** Rendering a list of records in two parts, one call after the other in
    the same build, gives the sections of rendering it in one call. *)
Theorem make_custom_rst_app (routes1 routes2 : list route_record) (w : world) :
  make_custom_rst ext (routes1 ++ routes2) w
  = (nodes1 <- make_custom_rst ext routes1 ;;
     nodes2 <- make_custom_rst ext routes2 ;;
     ret (nodes1 ++ nodes2)) w.
Proof.
  unfold bind. rewrite !make_custom_rst_numbered. cbn [serialno calls].
  unfold ret. rewrite length_app, Nat.add_assoc, numbered_sections_app.
  reflexivity.
Qed.

(** ** The HTTP-domain renderer, record by record *)

(** One more record at the end keeps the nodes returned so far and adds
    the parse of the blocks of all the records. *)
Theorem make_httpdomain_rst_snoc (routes : list route_record) (r : route_record) :
  make_httpdomain_rst ext (routes ++ [r])
  = make_httpdomain_rst ext routes
    ++ nested_parse_with_titles ext (flat_map (route_block ext) (routes ++ [r])).
Proof.
  unfold make_httpdomain_rst. rewrite fold_left_app.
  rewrite (httpdomain_loop ext routes [] []). cbn [fold_left].
  rewrite httpdomain_step_eq. cbn [snd app].
  rewrite flat_map_app. cbn [flat_map]. rewrite app_nil_r. reflexivity.
Qed.

(** For the records r1 ... rn [make_httpdomain_rst] returns the parse of the
    block of r1, then the parse of the blocks of r1 and r2, and so on up to
    the parse of the blocks of all the records. *)
Theorem make_httpdomain_rst_prefix_parses (routes : list route_record) :
  make_httpdomain_rst ext routes
  = flat_map
      (fun k => nested_parse_with_titles ext
                  (flat_map (route_block ext) (firstn k routes)))
      (seq 1 (length routes)).
Proof. apply make_httpdomain_rst_reparses. Qed.

End DirectiveComposition.

Section RunProperties.

Variable ext : externals.

(** ** The entry point, end to end *)

Lemma get_routes_ok (ini_file : pystr) (undocumented : option (list pystr))
    (registry : Registry ext) (w : world) :
  bootstrap ext ini_file = inr registry ->
  get_routes ext ini_file undocumented w
  = (Ok (documented_records ext registry undocumented),
     {| serialno := serialno w; calls := calls w ++ [Bootstrap ini_file] |}).
Proof.
  intros Hb. unfold get_routes, bind, log_call, documented_records, mapper_routes.
  rewrite Hb. simpl. rewrite map_routes_filter. reflexivity.
Qed.

Lemma get_routes_fails (ini_file : pystr) (undocumented : option (list pystr))
    (msg : pystr) (w : world) :
  bootstrap ext ini_file = inl msg ->
  get_routes ext ini_file undocumented w
  = (Raise (BootstrapError msg),
     {| serialno := serialno w; calls := calls w ++ [Bootstrap ini_file] |}).
Proof. intros Hb. unfold get_routes, bind, log_call. rewrite Hb. reflexivity. Qed.

Lemma get_routes_no_names (ini_file : pystr) (w : world) :
  get_routes ext ini_file (Some []) w = get_routes ext ini_file None w.
Proof.
  destruct (bootstrap ext ini_file) as [msg|registry] eqn:Hb.
  - rewrite !(get_routes_fails _ _ msg w Hb). reflexivity.
  - rewrite !(get_routes_ok _ _ registry w Hb). reflexivity.
Qed.

(** With the format left out or set to ['custom'], and an application that
    bootstraps, [run] returns one section for each tuple whose view the
    option does not name, in the order of the mapper; it uses one serial
    number per section and bootstraps the application once. *)
Theorem run_custom_sections (ini_file : pystr) (options : directive_options)
    (registry : Registry ext) (w : world) :
  bootstrap ext ini_file = inr registry ->
  opt_format options = None \/ opt_format options = Some (str "custom") ->
  let records :=
    documented_records ext registry
      (option_map split_ws (opt_undoc_endpoints options)) in
  exists nodes,
    run ext ini_file options w
    = (Ok nodes,
       {| serialno := serialno w + length records;
          calls := calls w ++ [Bootstrap ini_file] |})
    /\ Forall2 (is_custom_section ext) records nodes.
Proof.
  intros Hb Hf records.
  assert (Hrun : run ext ini_file options w
                 = make_custom_rst ext records
                     {| serialno := serialno w;
                        calls := calls w ++ [Bootstrap ini_file] |}).
  { unfold run, bind. rewrite (get_routes_ok _ _ registry w Hb).
    destruct Hf as [-> | ->]; reflexivity. }
  destruct (make_custom_rst_loop ext records []
              {| serialno := serialno w; calls := calls w ++ [Bootstrap ini_file] |})
    as [nodes [Hloop Hall]].
  exists nodes. split; [|exact Hall]. rewrite Hrun. exact Hloop.
Qed.

(** With the format ['httpdomain'] and an application that bootstraps, [run]
    returns, for each record in turn, the parse of the blocks of the records
    up to it; it uses no serial number. *)
Theorem run_httpdomain_nodes (ini_file : pystr) (options : directive_options)
    (registry : Registry ext) (w : world) :
  bootstrap ext ini_file = inr registry ->
  opt_format options = Some (str "httpdomain") ->
  let records :=
    documented_records ext registry
      (option_map split_ws (opt_undoc_endpoints options)) in
  run ext ini_file options w
  = (Ok (flat_map
           (fun k => nested_parse_with_titles ext
                       (flat_map (route_block ext) (firstn k records)))
           (seq 1 (length records))),
     {| serialno := serialno w; calls := calls w ++ [Bootstrap ini_file] |}).
Proof.
  intros Hb Hf records. unfold run, bind.
  rewrite (get_routes_ok _ _ registry w Hb), Hf.
  change (pystr_eqb (str "httpdomain") (str "custom")) with false.
  change (pystr_eqb (str "httpdomain") (str "httpdomain")) with true.
  cbv iota. unfold ret. rewrite make_httpdomain_rst_reparses. reflexivity.
Qed.

(** When the application cannot be bootstrapped, [run] raises the error of
    the bootstrap whatever the options are, and uses no serial number. *)
Theorem run_bootstrap_failure (ini_file : pystr) (options : directive_options)
    (msg : pystr) (w : world) :
  bootstrap ext ini_file = inl msg ->
  run ext ini_file options w
  = (Raise (BootstrapError msg),
     {| serialno := serialno w; calls := calls w ++ [Bootstrap ini_file] |}).
Proof.
  intros Hb. unfold run, bind. rewrite (get_routes_fails _ _ msg w Hb).
  reflexivity.
Qed.

(** Whatever the options and the outcome, [run] bootstraps the application
    exactly once and never takes a serial number back. *)
Theorem run_bootstraps_once (ini_file : pystr) (options : directive_options)
    (w : world) :
  calls (snd (run ext ini_file options w)) = calls w ++ [Bootstrap ini_file]
  /\ serialno w <= serialno (snd (run ext ini_file options w)).
Proof.
  destruct (bootstrap ext ini_file) as [msg|registry] eqn:Hb.
  - unfold run, bind. rewrite (get_routes_fails _ _ msg w Hb).
    split; [reflexivity | simpl; lia].
  - unfold run, bind. rewrite (get_routes_ok _ _ registry w Hb).
    destruct (pystr_eqb _ (str "custom")).
    + rewrite make_custom_rst_numbered. split; [reflexivity | simpl; lia].
    + destruct (pystr_eqb _ (str "httpdomain")); split;
        try reflexivity; simpl; lia.
Qed.

(** An [undoc-endpoints] option that holds only whitespace leaves out
    nothing: the directive behaves as it does without the option. *)
Theorem run_blank_undoc_endpoints (ini_file s : pystr) (format : option pystr)
    (w : world) :
  Forall (fun c => is_space c = true) s ->
  run ext ini_file {| opt_format := format; opt_undoc_endpoints := Some s |} w
  = run ext ini_file {| opt_format := format; opt_undoc_endpoints := None |} w.
Proof.
  intros Hs. unfold run. cbn [opt_format opt_undoc_endpoints option_map].
  unfold split_ws. rewrite (split_ws_aux_blank [] s Hs). cbn [truthy].
  unfold bind. rewrite get_routes_no_names. reflexivity.
Qed.

End RunProperties.

Lemma run_custom_sections_witness :
  exists nodes,
    run demo (str "development.ini")
      {| opt_format := None; opt_undoc_endpoints := Some (str "views.about") |}
      world0
    = (Ok nodes,
       {| serialno := 0 + length (documented_records demo [demo_home]
                                    (Some (split_ws (str "views.about"))));
          calls := [] ++ [Bootstrap (str "development.ini")] |})
    /\ Forall2 (is_custom_section demo)
         (documented_records demo [demo_home]
            (Some (split_ws (str "views.about")))) nodes.
Proof.
  exact (run_custom_sections demo (str "development.ini")
           {| opt_format := None; opt_undoc_endpoints := Some (str "views.about") |}
           [demo_home] world0 eq_refl (or_introl eq_refl)).
Defined.

Lemma run_httpdomain_nodes_witness :
  exists nodes,
    run demo (str "development.ini")
      {| opt_format := Some (str "httpdomain"); opt_undoc_endpoints := None |}
      world0
    = (Ok nodes, {| serialno := 0; calls := [Bootstrap (str "development.ini")] |})
    /\ map astext nodes
       = [str ".. http:GET:: /"; str "Doc A";
          str ".. http:GET:: /"; str "Doc A"; str ".. http:POST:: /"; str "Doc A"].
Proof.
  eexists. split.
  - apply (run_httpdomain_nodes demo (str "development.ini")
             {| opt_format := Some (str "httpdomain"); opt_undoc_endpoints := None |}
             [demo_home] world0 eq_refl eq_refl).
  - reflexivity.
Defined.

Lemma run_bootstrap_failure_witness :
  run demo (str "production.ini")
    {| opt_format := Some (str "httpdomain"); opt_undoc_endpoints := None |}
    {| serialno := 7; calls := [] |}
  = (Raise (BootstrapError (str "no such file")),
     {| serialno := 7; calls := [Bootstrap (str "production.ini")] |}).
Proof.
  apply (run_bootstrap_failure demo (str "production.ini")
           {| opt_format := Some (str "httpdomain"); opt_undoc_endpoints := None |}
           (str "no such file") {| serialno := 7; calls := [] |}).
  reflexivity.
Defined.

Lemma run_blank_undoc_endpoints_witness :
  run demo (str "development.ini")
    {| opt_format := None; opt_undoc_endpoints := Some ([SPACE; TAB; SPACE]) |}
    world0
  = run demo (str "development.ini")
      {| opt_format := None; opt_undoc_endpoints := None |} world0.
Proof.
  apply (run_blank_undoc_endpoints demo (str "development.ini")
           [SPACE; TAB; SPACE] None world0).
  repeat constructor.
Defined.

(** ** Docstrings [trim] returns as they are *)

(** A docstring is returned unchanged when its lines hold no tab and no
    trailing whitespace, its first line starts with text, its last line is
    not empty, and it is a single line or one of the lines after the first
    starts with text in the first column. *)
Theorem trim_fixed_point (t : list pystr) :
  Forall no_tab t -> Forall no_linebreak t ->
  Forall (fun line => rstrip line = line) t ->
  hd [] t <> [] -> last t [] <> [] -> lstrip (hd [] t) = hd [] t ->
  (tl t = []
   \/ exists line, In line (tl t) /\ line <> [] /\ lstrip line = line) ->
  trim (Some (join [LF] t)) = join [LF] t.
Proof.
  intros Hnt Hnl Hr Hhd Hlast Hl Htl.
  rewrite trim_join_all, resplit by (try assumption; intros _; exact Hlast).
  f_equal. apply trim_lines_fixed; assumption.
Qed.

Lemma trim_fixed_point_witness :
  trim (Some (join [LF] [str "Title"; []; str "body"; str "    more"]))
  = join [LF] [str "Title"; []; str "body"; str "    more"].
Proof.
  apply (trim_fixed_point [str "Title"; []; str "body"; str "    more"]).
  - repeat constructor; discriminate.
  - repeat constructor.
  - repeat constructor.
  - discriminate.
  - discriminate.
  - reflexivity.
  - right. exists (str "body"). split; [right; left; reflexivity|].
    split; [discriminate | reflexivity].
Defined.

(** ** Names in the option [undoc-endpoints] *)

(** When the option lists words with single spaces between them, the views
    left out are exactly the views the option lists. *)
Theorem undoc_endpoints_names (names : list pystr) (view : pystr) :
  Forall is_word names ->
  (is_undocumented (option_map split_ws (Some (join [SPACE] names))) view = true
   <-> In view names).
Proof.
  intros H. cbn [option_map is_undocumented].
  rewrite (split_ws_join names H). apply contains_In.
Qed.

Lemma undoc_endpoints_names_witness :
  is_undocumented
    (option_map split_ws (Some (join [SPACE] [str "views.home"; str "views.about"])))
    (str "views.about") = true.
Proof.
  apply (undoc_endpoints_names [str "views.home"; str "views.about"]
           (str "views.about")).
  - repeat constructor; discriminate.
  - right. left. reflexivity.
Defined.
